(** * Flashnotify: notification dispatcher, circuit breaker and task queues

    Shallow embedding of
    - [core/decorators.py]           (the circuit breaker added by [add_circuit_breaker]),
    - [core/notification_system.py]  (priority resolution, channel senders, retry
                                      decorator, formatting, archiving, [AcademicNotifier]),
    - [core/queue.py]                ([AsyncQueue] and [ThreadPoolQueue]).

    Python values are modelled as follows.  [int] is [Z]; [str] is [string]
    holding the UTF-8 encoding of the text; a [datetime] is the number of
    microseconds since a fixed origin, as a [Z]; a call that may raise returns
    an [Outcome].  Objects mutated in place are threaded as explicit state. *)

From Stdlib Require Import ZArith Lia Ascii String Sorted.
From stdpp Require Import base option list gmap strings.

Open Scope string_scope.
Open Scope list_scope.
Open Scope Z_scope.

(** ** Python preliminaries *)

Module Py.

(** An exception is represented by [str(e)], the only thing the code reads. *)
Definition Exception := string.

(** The result of a call: a returned value or a raised exception. *)
Inductive Outcome (A : Type) : Type :=
| Return (v : A)
| Raise (e : Exception).
Arguments Return {A} v.
Arguments Raise {A} e.

Definition raised {A} (o : Outcome A) : bool :=
  match o with Return _ => false | Raise _ => true end.

(** Truthiness of an optional string: [None] and the empty string are falsy. *)
Definition truthy_str (o : option string) : bool :=
  match o with
  | Some (String _ _) => true
  | _ => false
  end.

Definition byte_val (c : ascii) : N := N_of_ascii c.

(** [str.upper()] on UTF-8 text.  Exact on ASCII and on the two-byte
    sequences of U+00E0..U+00FE (minus U+00F7), which are the only
    lower-case code points occurring in the values of [EmergencyType];
    every other byte is copied. *)
Fixpoint upper (s : string) : string :=
  match s with
  | EmptyString => EmptyString
  | String c rest =>
      let n := byte_val c in
      if (n =? 195)%N then
        match rest with
        | String d rest' =>
            let m := byte_val d in
            if ((160 <=? m) && (m <=? 190) && negb (m =? 183))%N
            then String c (String (ascii_of_N (m - 32)) (upper rest'))
            else String c (String d (upper rest'))
        | EmptyString => String c EmptyString
        end
      else if ((97 <=? n) && (n <=? 122))%N
      then String (ascii_of_N (n - 32)) (upper rest)
      else String c (upper rest)
  end.

(** [str.join] *)
Fixpoint join (sep : string) (l : list string) : string :=
  match l with
  | [] => ""
  | [x] => x
  | x :: tl => x +:+ sep +:+ join sep tl
  end.

(** [datetime] and [timedelta].  A difference of two datetimes is a
    [timedelta], normalised by Python into [days], [seconds] in
    [0, 86400) and [microseconds] in [0, 10^6).  The attribute
    [.seconds] is the middle component only. *)
Definition datetime := Z.
Definition timedelta := Z.

Definition us_per_second : Z := 1000000.
Definition seconds_per_day : Z := 86400.

Definition td_days (d : timedelta) : Z := d / (us_per_second * seconds_per_day).
Definition td_seconds (d : timedelta) : Z := (d / us_per_second) mod seconds_per_day.
Definition td_microseconds (d : timedelta) : Z := d mod us_per_second.
Definition total_seconds_floor (d : timedelta) : Z := d / us_per_second.

End Py.
Import Py.

(** ** core/decorators.py : the circuit breaker *)

Module Decorators.

(** The four attributes installed by [add_circuit_breaker]'s [__init__]. *)
Record CircuitBreaker : Type := mkCB {
  _circuit_breaker_failures : Z;
  _circuit_breaker_last_failure : option datetime;
  _circuit_breaker_max_failures : Z;
  _circuit_breaker_timeout : Z
}.

Definition init (max_failures timeout : Z) : CircuitBreaker :=
  mkCB 0 None max_failures timeout.

(** [is_circuit_open]; [now] is the value of [datetime.now()].  The
    method may write [_circuit_breaker_failures], so it returns the
    updated object too. *)
Definition is_circuit_open (now : datetime) (self : CircuitBreaker)
  : bool * CircuitBreaker :=
  if _circuit_breaker_max_failures self <=? _circuit_breaker_failures self then
    match _circuit_breaker_last_failure self with
    | Some last =>
        let elapsed := td_seconds (now - last) in
        if elapsed <? _circuit_breaker_timeout self then (true, self)
        else (false,
              mkCB 0 (_circuit_breaker_last_failure self)
                   (_circuit_breaker_max_failures self)
                   (_circuit_breaker_timeout self))
    | None => (false, self)
    end
  else (false, self).

Definition record_failure (now : datetime) (self : CircuitBreaker) : CircuitBreaker :=
  mkCB (_circuit_breaker_failures self + 1) (Some now)
       (_circuit_breaker_max_failures self) (_circuit_breaker_timeout self).

Definition record_success (self : CircuitBreaker) : CircuitBreaker :=
  mkCB 0 None (_circuit_breaker_max_failures self) (_circuit_breaker_timeout self).

(** [n] calls of [record_failure], at the times listed. *)
Definition record_failures (times : list datetime) (self : CircuitBreaker)
  : CircuitBreaker :=
  fold_left (fun cb t => record_failure t cb) times self.

End Decorators.
Import Decorators.

(** ** core/notification_system.py *)

Module NotificationSystem.

Inductive EmergencyType : Type :=
| WEATHER | SECURITY | HEALTH | INFRASTRUCTURE | ACADEMIC.

(** [EmergencyType.<member>.value] *)
Definition value (e : EmergencyType) : string :=
  match e with
  | WEATHER => "météo"
  | SECURITY => "sécurité"
  | HEALTH => "santé"
  | INFRASTRUCTURE => "infrastructure"
  | ACADEMIC => "académique"
  end.

Inductive Priority : Type := CRITICAL | HIGH | MEDIUM | LOW.

Definition priority_value (p : Priority) : Z :=
  match p with CRITICAL => 4 | HIGH => 3 | MEDIUM => 2 | LOW => 1 end.

Definition priority_name (p : Priority) : string :=
  match p with
  | CRITICAL => "CRITICAL" | HIGH => "HIGH" | MEDIUM => "MEDIUM" | LOW => "LOW"
  end.

Definition is_critical (p : Priority) : bool :=
  match p with CRITICAL => true | _ => false end.

(** [get_priority] is untyped: its argument is either a member of
    [EmergencyType] or any other object (named here by its [repr]).  An
    [Enum] member compares equal to itself only. *)
Inductive EmergencyArg : Type :=
| Member (e : EmergencyType)
| Other (repr : string).

Definition get_priority (emergency_type : EmergencyArg) : Priority :=
  match emergency_type with
  | Member SECURITY | Member HEALTH => CRITICAL
  | Member WEATHER => HIGH
  | Member INFRASTRUCTURE => MEDIUM
  | _ => LOW
  end.

(** *** Channels and the notifier object *)

Inductive Channel : Type := Email | SMS | Push.

Definition channel_name (c : Channel) : string :=
  match c with Email => "Email" | SMS => "SMS" | Push => "Push" end.

Definition method_name (c : Channel) : string :=
  match c with Email => "send_email" | SMS => "send_sms" | Push => "send_push" end.

Definition failure_message (c : Channel) : Exception :=
  match c with
  | Email => "Échec d'envoi Email"
  | SMS => "Échec d'envoi SMS"
  | Push => "Échec d'envoi Notification Push"
  end.

(** The dictionary returned by a successful send. *)
Record DeliveryResult : Type := mkResult {
  r_status : string;
  r_channel : string;
  r_recipient : string;
  r_message : string
}.

(** The user dictionary ([User.to_dict()]).  [phone] is [None] when the key
    is absent or holds [None]; [u_prefers_email] is [None] when the key is
    absent. *)
Record User : Type := mkUser {
  u_id : string;
  u_name : string;
  u_email : string;
  u_phone : option string;
  u_prefers_email : option bool
}.

(** A row of the [notifications] table. *)
Record NotificationRow : Type := mkRow {
  row_id : Z;
  row_user_id : string;
  row_title : string;
  row_body : string;
  row_emergency_type : string;
  row_priority : string;
  row_channels : string
}.

(** The [notification_data] dictionary built by [notify]. *)
Record NotificationData : Type := mkData {
  d_user_id : string;
  d_title : string;
  d_body : string;
  d_emergency_type : string;
  d_priority : string;
  d_results : list (option DeliveryResult);
  d_notification_id : option Z
}.

(** What the code cannot decide by itself: the draws of
    [random.random()] (the [n]-th draw is below 0.1 when
    [random_fails n]) and the database ([commit_error n] is the exception
    raised by the [n]-th [db.session.commit()], if any). *)
Record Env : Type := mkEnv {
  random_fails : nat -> bool;
  commit_error : nat -> option Exception
}.

(** An [AcademicNotifier] instance together with the world it acts on.
    [calls] and [attempts] are ghost logs: one entry per call of a
    decorated [send_*] method, and one entry per execution of its body. *)
Record Notifier : Type := mkNotifier {
  breaker : CircuitBreaker;
  _performance_metrics : list string;
  draws : nat;
  calls : list Channel;
  attempts : list Channel;
  commits : nat;
  notifications : list NotificationRow
}.

(** [AcademicNotifier()] : decorated with
    [add_circuit_breaker(max_failures=5, timeout=60)]. *)
Definition AcademicNotifier (rows : list NotificationRow) : Notifier :=
  mkNotifier (Decorators.init 5 60) [] 0%nat [] [] 0%nat rows.

Definition set_breaker (cb : CircuitBreaker) (self : Notifier) : Notifier :=
  mkNotifier cb (_performance_metrics self) (draws self) (calls self)
             (attempts self) (commits self) (notifications self).

Definition _track_performance (method : string) (self : Notifier) : Notifier :=
  mkNotifier (breaker self) (_performance_metrics self ++ [method]) (draws self)
             (calls self) (attempts self) (commits self) (notifications self).

Definition log_call (c : Channel) (self : Notifier) : Notifier :=
  mkNotifier (breaker self) (_performance_metrics self) (draws self)
             (calls self ++ [c]) (attempts self) (commits self) (notifications self).

Definition draw (c : Channel) (self : Notifier) : Notifier :=
  mkNotifier (breaker self) (_performance_metrics self) (S (draws self))
             (calls self) (attempts self ++ [c]) (commits self) (notifications self).

(** *** [retry_on_failure] *)

(** The [for attempt in range(1, retries + 1)] loop: [todo] iterations
    are left and the next one is number [attempt].  When the range is
    exhausted the wrapper returns [None]. *)
Fixpoint retry_loop {S A : Type} (func : S -> Outcome A * S)
         (retries : nat) (todo : nat) (attempt : nat) (s : S)
  : Outcome (option A) * S :=
  match todo with
  | O => (Return None, s)
  | Datatypes.S todo' =>
      match func s with
      | (Return v, s') => (Return (Some v), s')
      | (Raise e, s') =>
          if Nat.eqb attempt retries then (Raise e, s')
          else retry_loop func retries todo' (Datatypes.S attempt) s'
      end
  end.

Definition retry_on_failure {S A : Type} (retries : nat)
           (func : S -> Outcome A * S) : S -> Outcome (option A) * S :=
  retry_loop func retries retries 1%nat.

(** [log_notification] only prints around the call; the ghost log
    [calls] records that the decorated method was entered. *)
Definition log_notification {A : Type} (c : Channel)
           (func : Notifier -> Outcome A * Notifier) : Notifier -> Outcome A * Notifier :=
  fun self => func (log_call c self).

(** *** The channel mixins *)

(** The body shared by [send_sms], [send_email] and [send_push]: the
    three differ only in the channel name, the error text and the metric
    name. *)
Definition send_body (env : Env) (c : Channel) (message recipient : string)
           (self : Notifier) : Outcome DeliveryResult * Notifier :=
  let fails := random_fails env (draws self) in
  let self := draw c self in
  if fails then (Raise (failure_message c), self)
  else (Return (mkResult "success" (channel_name c) recipient message),
        _track_performance (method_name c) self).

Definition send_sms (env : Env) (message number : string) :=
  log_notification SMS (retry_on_failure 3 (send_body env SMS message number)).

Definition send_email (env : Env) (message email : string) :=
  log_notification Email (retry_on_failure 3 (send_body env Email message email)).

Definition send_push (env : Env) (message user_id : string) :=
  log_notification Push (retry_on_failure 3 (send_body env Push message user_id)).

(** The decorated method that serves channel [c]. *)
Definition send (env : Env) (c : Channel) (message recipient : string)
  : Notifier -> Outcome (option DeliveryResult) * Notifier :=
  match c with
  | Email => send_email env message recipient
  | SMS => send_sms env message recipient
  | Push => send_push env message recipient
  end.

(** *** FormattingMixin *)

Definition newline : string := String (ascii_of_N 10) EmptyString.

(** Members of an [Enum] are always truthy, so the prefix is added
    whenever an emergency type is passed. *)
Definition format_message (title body : string)
           (emergency_type : option EmergencyType) : string :=
  let formatted := title +:+ newline +:+ body in
  match emergency_type with
  | Some et => "[" +:+ upper (value et) +:+ "] " +:+ formatted
  | None => formatted
  end.

(** *** UserPreferenceMixin *)

Definition prefers_email (user : User) : bool :=
  default true (u_prefers_email user).

(** *** ArchiveMixin *)

(** [[r['channel'] for r in results if r.get('status') == 'success']];
    an entry that is [None] has no [get]. *)
Fixpoint success_channels (results : list (option DeliveryResult))
  : Outcome (list string) :=
  match results with
  | [] => Return []
  | None :: _ => Raise "'NoneType' object has no attribute 'get'"
  | Some r :: tl =>
      match success_channels tl with
      | Raise e => Raise e
      | Return l =>
          Return (if String.eqb (r_status r) "success" then r_channel r :: l else l)
      end
  end.

Definition set_notification_id (i : Z) (d : NotificationData) : NotificationData :=
  mkData (d_user_id d) (d_title d) (d_body d) (d_emergency_type d) (d_priority d)
         (d_results d) (Some i).

Definition count_commit (self : Notifier) : Notifier :=
  mkNotifier (breaker self) (_performance_metrics self) (draws self) (calls self)
             (attempts self) (S (commits self)) (notifications self).

Definition add_row (r : NotificationRow) (self : Notifier) : Notifier :=
  mkNotifier (breaker self) (_performance_metrics self) (draws self) (calls self)
             (attempts self) (commits self) (notifications self ++ [r]).

(** [archive_notification]: on any exception the session is rolled
    back (the table is unchanged) and the exception is raised again. *)
Definition archive_notification (env : Env) (notification_data : NotificationData)
           (self : Notifier) : Outcome NotificationData * Notifier :=
  match success_channels (d_results notification_data) with
  | Raise e => (Raise e, self)
  | Return chans =>
      match commit_error env (commits self) with
      | Some e => (Raise e, count_commit self)
      | None =>
          let new_id := Z.of_nat (length (notifications self)) + 1 in
          let row := mkRow new_id (d_user_id notification_data)
                           (d_title notification_data) (d_body notification_data)
                           (d_emergency_type notification_data)
                           (d_priority notification_data) (join "," chans) in
          (Return (set_notification_id new_id notification_data),
           add_row row (count_commit self))
      end
  end.

(** *** AcademicNotifier *)

Definition append_result (acc : list (option DeliveryResult))
           (r : Outcome (option DeliveryResult) * Notifier)
  : list (option DeliveryResult) * Notifier :=
  match r with
  | (Return v, self) => (acc ++ [v], self)
  | (Raise _, self) => (acc, self)
  end.

(** [send_all_channels]: every [send_*] sits in its own
    [try/except Exception], so nothing escapes. *)
Definition send_all_channels (env : Env) (message : string) (user : User)
           (self : Notifier) : list (option DeliveryResult) * Notifier :=
  let '(results, self) := append_result [] (send_email env message (u_email user) self) in
  let '(results, self) := append_result results (send_push env message (u_id user) self) in
  if truthy_str (u_phone user) then
    append_result results (send_sms env message (default "" (u_phone user)) self)
  else (results, self).

Definition circuit_open_error : Exception := "Circuit ouvert : trop d'échecs récents".

(** The [try] block of [notify]. *)
Definition notify_try (env : Env) (user : User) (title body : string)
           (emergency_type : EmergencyType) (self : Notifier)
  : Outcome NotificationData * Notifier :=
  let priority := get_priority (Member emergency_type) in
  let message := format_message title body (Some emergency_type) in
  let sent :=
    if is_critical priority then
      let '(results, self) := send_all_channels env message user self in
      (Return results, self)
    else if prefers_email user then
      match send_email env message (u_email user) self with
      | (Return v, self) => (Return [v], self)
      | (Raise e, self) => (Raise e, self)
      end
    else
      match send_push env message (u_id user) self with
      | (Return v, self) => (Return [v], self)
      | (Raise e, self) => (Raise e, self)
      end in
  match sent with
  | (Raise e, self) => (Raise e, self)
  | (Return results, self) =>
      let notification_data :=
        mkData (u_id user) title body (value emergency_type)
               (priority_name priority) results None in
      match archive_notification env notification_data self with
      | (Raise e, self) => (Raise e, self)
      | (Return notification_data, self) =>
          (Return notification_data, set_breaker (record_success (breaker self)) self)
      end
  end.

(** [notify].  [t_check] is the clock read by [is_circuit_open] and
    [t_fail] the clock read by [record_failure], should it be called. *)
Definition notify (env : Env) (t_check t_fail : datetime) (user : User)
           (title body : string) (emergency_type : EmergencyType) (self : Notifier)
  : Outcome NotificationData * Notifier :=
  let '(is_open, cb) := is_circuit_open t_check (breaker self) in
  let self := set_breaker cb self in
  if is_open then (Raise circuit_open_error, self)
  else
    match notify_try env user title body emergency_type self with
    | (Return notification_data, self) => (Return notification_data, self)
    | (Raise e, self) =>
        (Raise e, set_breaker (record_failure t_fail (breaker self)) self)
    end.

(** [notify] called once per entry of [times], on the same user and
    message; returns the outcomes in call order. *)
Fixpoint notify_each (env : Env) (times : list (datetime * datetime)) (user : User)
         (title body : string) (emergency_type : EmergencyType) (self : Notifier)
  : list (Outcome NotificationData) * Notifier :=
  match times with
  | [] => ([], self)
  | (t_check, t_fail) :: tl =>
      let '(o, self) := notify env t_check t_fail user title body emergency_type self in
      let '(os, self) := notify_each env tl user title body emergency_type self in
      (o :: os, self)
  end.

End NotificationSystem.
Import NotificationSystem.

(** ** core/queue.py *)

Module Queue.

Inductive TaskStatus : Type := PENDING | RUNNING | COMPLETED | FAILED | RETRYING.

(** [QueuedTask].  The callable and its stored arguments are one field:
    [func n] is the outcome of [task.func( *task.args, **task.kwargs)]
    when [n] work functions have been invoked by the queue before, so the
    work may answer differently from one call to the next.  The work does
    not touch the queue itself. *)
Record QueuedTask : Type := mkTask {
  id : string;
  func : nat -> Outcome string;
  status : TaskStatus;
  created_at : datetime;
  started_at : option datetime;
  completed_at : option datetime;
  result : option string;
  error : option string;
  retry_count : Z;
  max_retries : Z;
  priority : Z
}.

Definition start_task (now : datetime) (t : QueuedTask) : QueuedTask :=
  mkTask (id t) (func t) RUNNING (created_at t) (Some now) (completed_at t)
         (result t) (error t) (retry_count t) (max_retries t) (priority t).

Definition complete_task (v : string) (now : datetime) (t : QueuedTask) : QueuedTask :=
  mkTask (id t) (func t) COMPLETED (created_at t) (started_at t) (Some now)
         (Some v) (error t) (retry_count t) (max_retries t) (priority t).

(** [task.error = str(e); task.retry_count += 1] *)
Definition note_error (e : Exception) (t : QueuedTask) : QueuedTask :=
  mkTask (id t) (func t) (status t) (created_at t) (started_at t) (completed_at t)
         (result t) (Some e) (retry_count t + 1) (max_retries t) (priority t).

Definition retry_task (t : QueuedTask) : QueuedTask :=
  mkTask (id t) (func t) RETRYING (created_at t) (started_at t) (completed_at t)
         (result t) (error t) (retry_count t) (max_retries t) (priority t).

Definition fail_task (now : datetime) (t : QueuedTask) : QueuedTask :=
  mkTask (id t) (func t) FAILED (created_at t) (started_at t) (Some now)
         (result t) (error t) (retry_count t) (max_retries t) (priority t).

(** A queue object: the ready queue (its items in insertion order), the
    registry [tasks], the [running] flag, and the world: [ticks] counts
    the calls of [datetime.now()], and [invoked] is a ghost log with the
    id of every task whose work function was called, in call order.
    One worker serves the queue: a loop iteration is one step. *)
Record QueueState (Item : Type) : Type := mkQueue {
  queue : list Item;
  tasks : gmap string QueuedTask;
  running : bool;
  invoked : list string;
  ticks : nat
}.
Arguments mkQueue {Item}.
Arguments queue {Item}.
Arguments tasks {Item}.
Arguments running {Item}.
Arguments invoked {Item}.
Arguments ticks {Item}.

Section Updates.
Context {Item : Type}.

Definition set_queue (q : list Item) (self : QueueState Item) : QueueState Item :=
  mkQueue q (tasks self) (running self) (invoked self) (ticks self).

(** A write to a field of the task object registered under [task_id]. *)
Definition set_task (task_id : string) (t : QueuedTask) (self : QueueState Item)
  : QueueState Item :=
  mkQueue (queue self) (<[task_id := t]> (tasks self)) (running self)
          (invoked self) (ticks self).

Definition tick (self : QueueState Item) : QueueState Item :=
  mkQueue (queue self) (tasks self) (running self) (invoked self) (S (ticks self)).

Definition log_invocation (task_id : string) (self : QueueState Item)
  : QueueState Item :=
  mkQueue (queue self) (tasks self) (running self) (invoked self ++ [task_id])
          (ticks self).

Definition set_running (b : bool) (self : QueueState Item) : QueueState Item :=
  mkQueue (queue self) (tasks self) b (invoked self) (ticks self).
End Updates.

(** *** [asyncio.PriorityQueue] of pairs [(−priority, task_id)] *)

(** Python's [<] on tuples [(int, str)]. *)
Definition item_ltb (a b : Z * string) : bool :=
  (a.1 <? b.1) || ((a.1 =? b.1) && String.ltb a.2 b.2).

(** [extract_min x l] takes the least item out of [x :: l]. *)
Fixpoint extract_min (x : Z * string) (l : list (Z * string))
  : (Z * string) * list (Z * string) :=
  match l with
  | [] => (x, [])
  | y :: tl =>
      let '(m, rest) := extract_min y tl in
      if item_ltb m x then (m, x :: rest) else (x, y :: tl)
  end.

(** [get] on a non-empty queue; [None] stands for the wait that ends in
    [asyncio.TimeoutError]. *)
Definition pq_get (q : list (Z * string)) : option ((Z * string) * list (Z * string)) :=
  match q with
  | [] => None
  | x :: l => Some (extract_min x l)
  end.

Definition pq_put (x : Z * string) (q : list (Z * string)) : list (Z * string) :=
  q ++ [x].

(** Items in the order [get] would hand them out. *)
Fixpoint drain (fuel : nat) (q : list (Z * string)) : list (Z * string) :=
  match fuel with
  | O => []
  | S fuel' =>
      match pq_get q with
      | None => []
      | Some (x, q') => x :: drain fuel' q'
      end
  end.

(** *** [queue.Queue] of task ids (FIFO) *)

Definition fifo_get (q : list string) : option (string * list string) :=
  match q with
  | [] => None
  | x :: l => Some (x, l)
  end.

Definition fifo_put (x : string) (q : list string) : list string := q ++ [x].

(** *** AsyncQueue *)

Module AsyncQueue.

Definition t := QueueState (Z * string).

Definition init : t := mkQueue [] ∅ false [] 0%nat.

Definition start (self : t) : t :=
  if running self then self else set_running true self.

Definition stop (self : t) : t :=
  if negb (running self) then self else set_running false self.

(** One iteration of the [while self.running] loop of [_worker]. *)
Definition worker_iteration (clock : nat -> datetime) (self : t) : t :=
  match pq_get (queue self) with
  | None => self
  | Some ((_, task_id), q') =>
      let self := set_queue q' self in
      match tasks self !! task_id with
      | None => self
      | Some task =>
          let task := start_task (clock (ticks self)) task in
          let self := tick (set_task task_id task self) in
          let outcome := func task (length (invoked self)) in
          let self := log_invocation task_id self in
          match outcome with
          | Return v =>
              let task := complete_task v (clock (ticks self)) task in
              tick (set_task task_id task self)
          | Raise e =>
              let task := note_error e task in
              if retry_count task <? max_retries task then
                let task := retry_task task in
                let self := set_task task_id task self in
                set_queue (pq_put (-1, task_id) (queue self)) self
              else
                let task := fail_task (clock (ticks self)) task in
                tick (set_task task_id task self)
          end
      end
  end.

(** [_worker], observed after [n] iterations of its loop. *)
Fixpoint _worker (clock : nat -> datetime) (n : nat) (self : t) : t :=
  match n with
  | O => self
  | S n' =>
      if running self then _worker clock n' (worker_iteration clock self)
      else self
  end.

(** [enqueue]; [task_id] is the string drawn by [uuid.uuid4()]. *)
Definition enqueue (clock : nat -> datetime) (task_id : string)
           (func : nat -> Outcome string) (priority max_retries : Z) (self : t)
  : string * t :=
  let task := mkTask task_id func PENDING (clock (ticks self)) None None None None
                     0 max_retries priority in
  let self := tick self in
  let self := set_task task_id task self in
  let self := set_queue (pq_put (- priority, task_id) (queue self)) self in
  (task_id, self).


End AsyncQueue.

(** *** ThreadPoolQueue *)

Module ThreadPoolQueue.

Definition t := QueueState string.

Definition init : t := mkQueue [] ∅ false [] 0%nat.

Definition start (self : t) : t :=
  if running self then self else set_running true self.

Definition stop (self : t) : t :=
  if negb (running self) then self else set_running false self.

(** One iteration of the [while self.running] loop of [_worker];
    [None] from [fifo_get] stands for [Empty] after the timeout. *)
Definition worker_iteration (clock : nat -> datetime) (self : t) : t :=
  match fifo_get (queue self) with
  | None => self
  | Some (task_id, q') =>
      let self := set_queue q' self in
      match tasks self !! task_id with
      | None => self
      | Some task =>
          let task := start_task (clock (ticks self)) task in
          let self := tick (set_task task_id task self) in
          let outcome := func task (length (invoked self)) in
          let self := log_invocation task_id self in
          match outcome with
          | Return v =>
              let task := complete_task v (clock (ticks self)) task in
              tick (set_task task_id task self)
          | Raise e =>
              let task := note_error e task in
              let self := set_task task_id task self in
              if retry_count task <? max_retries task then
                let task := retry_task task in
                let self := set_task task_id task self in
                set_queue (fifo_put task_id (queue self)) self
              else
                let task := fail_task (clock (ticks self)) task in
                tick (set_task task_id task self)
          end
      end
  end.

Fixpoint _worker (clock : nat -> datetime) (n : nat) (self : t) : t :=
  match n with
  | O => self
  | S n' =>
      if running self then _worker clock n' (worker_iteration clock self)
      else self
  end.

(** [enqueue]: the priority is stored in the task but only the id is
    put on the queue. *)
Definition enqueue (clock : nat -> datetime) (task_id : string)
           (func : nat -> Outcome string) (priority max_retries : Z) (self : t)
  : string * t :=
  let task := mkTask task_id func PENDING (clock (ticks self)) None None None None
                     0 max_retries priority in
  let self := tick self in
  let self := set_task task_id task self in
  let self := set_queue (fifo_put task_id (queue self)) self in
  (task_id, self).

End ThreadPoolQueue.

End Queue.
Import Queue.

(** ** The channel table of the specification *)

Module Spec.

(** The specification's [channels_for(priority, user)], against which the
    calls made by [notify] are compared: every channel for CRITICAL
    (SMS only with a phone number), otherwise the one preferred
    channel. *)
Definition channels_for (p : Priority) (user : User) : list Channel :=
  match p with
  | CRITICAL => [Email; Push] ++ (if truthy_str (u_phone user) then [SMS] else [])
  | _ => [if prefers_email user then Email else Push]
  end.

End Spec.

(** ** Devices of the proofs *)

(** Counting the executions of a sender's body. *)

Module Attempts.

(** [k] executions of the body of a sender that all raised. *)
Fixpoint draw_n (k : nat) (c : Channel) (self : Notifier) : Notifier :=
  match k with
  | O => self
  | S k' => draw_n k' c (draw c self)
  end.


End Attempts.
Import Attempts.

(** The loop of a worker, over the interface the two ready queues share:
    [get] takes the next item out, [item_id] reads the task id of an item
    and [retry_item] makes the item put back for a retry. *)

Module Worker.

Section Definitions.

Context {Item : Type}.
Variable get : list Item -> option (Item * list Item).
Variable item_id : Item -> string.
Variable retry_item : string -> Item.
Variable clock : nat -> datetime.

Implicit Types (self : QueueState Item) (task : QueuedTask).

(** What a worker does with the task id it has taken from the queue. *)
Definition run_task (task_id : string) self : QueueState Item :=
  match tasks self !! task_id with
  | None => self
  | Some task =>
      let task := start_task (clock (ticks self)) task in
      let self := tick (set_task task_id task self) in
      let outcome := func task (length (invoked self)) in
      let self := log_invocation task_id self in
      match outcome with
      | Return v =>
          let task := complete_task v (clock (ticks self)) task in
          tick (set_task task_id task self)
      | Raise e =>
          let task := note_error e task in
          if retry_count task <? max_retries task then
            let task := retry_task task in
            let self := set_task task_id task self in
            set_queue (queue self ++ [retry_item task_id]) self
          else
            let task := fail_task (clock (ticks self)) task in
            tick (set_task task_id task self)
      end
  end.

Definition iteration self : QueueState Item :=
  match get (queue self) with
  | None => self
  | Some (x, q') => run_task (item_id x) (set_queue q' self)
  end.

Fixpoint iterations (n : nat) self : QueueState Item :=
  match n with
  | O => self
  | S n' => iterations n' (iteration self)
  end.

(** The three ways a run of a registered task can end. *)
Inductive run_end (task task' : QueuedTask) (q q' : list Item) (task_id : string)
          (calls_before : nat) : Prop :=
| run_completed (v : string) :
    func task calls_before = Return v ->
    retry_count task' = retry_count task -> status task' = COMPLETED -> q' = q ->
    run_end task task' q q' task_id calls_before
| run_retrying (e : Exception) :
    func task calls_before = Raise e ->
    retry_count task' = retry_count task + 1 ->
    retry_count task + 1 < max_retries task ->
    status task' = RETRYING -> q' = q ++ [retry_item task_id] ->
    run_end task task' q q' task_id calls_before
| run_failed (e : Exception) :
    func task calls_before = Raise e ->
    retry_count task' = retry_count task + 1 ->
    max_retries task <= retry_count task + 1 ->
    status task' = FAILED -> q' = q ->
    run_end task task' q q' task_id calls_before.

(** One iteration: an empty queue (the wait times out), an id that is
    no longer registered, or a run. *)
Inductive iteration_end self : QueueState Item -> Prop :=
| iter_idle : queue self = [] -> iteration_end self self
| iter_skip x q' :
    queue self ≡ₚ x :: q' -> tasks self !! item_id x = None ->
    iteration_end self (set_queue q' self)
| iter_run x q' task task' q'' ticks' :
    queue self ≡ₚ x :: q' -> tasks self !! item_id x = Some task ->
    func task' = func task -> max_retries task' = max_retries task ->
    run_end task task' q' q'' (item_id x) (length (invoked self)) ->
    iteration_end self
      (mkQueue q'' (<[item_id x := task']> (tasks self)) (running self)
               (invoked self ++ [item_id x]) ticks').

(** What a queued id may still cost: one execution, plus the retries its
    task has left. *)
Definition weight (m : gmap string QueuedTask) (task_id : string) : nat :=
  match m !! task_id with
  | None => 1
  | Some task => S (Z.to_nat (max_retries task - retry_count task - 1))
  end.

Definition load self : nat :=
  list_sum (map (fun x => weight (tasks self) (item_id x)) (queue self)).

Section Target.

Variable target : string.
Variable N : Z.
Variable base : nat.

Definition occ (q : list Item) : nat := length (filter (fun x => item_id x = target) q).
Definition runs (l : list string) : nat := length (filter (fun i => i = target) l).

Definition always_raises task : Prop := forall n, raised (func task n) = true.

(** Either the target is queued once, with [k < N] failures behind it and
    [k] invocations, or it is out of the queue, FAILED, with [N] failures
    and [N] invocations. *)
Inductive target_state self : Prop :=
| target_queued task :
    tasks self !! target = Some task -> always_raises task ->
    max_retries task = N -> occ (queue self) = 1%nat ->
    0 <= retry_count task < N ->
    runs (invoked self) = (base + Z.to_nat (retry_count task))%nat ->
    target_state self
| target_failed task :
    tasks self !! target = Some task -> occ (queue self) = 0%nat ->
    status task = FAILED -> retry_count task = N ->
    runs (invoked self) = (base + Z.to_nat N)%nat ->
    target_state self.

End Target.

End Definitions.

(** The retried id goes back with the pair [(-1, task_id)]. *)
Definition async_retry (task_id : string) : Z * string := (-1, task_id).

Definition async_iteration := iteration pq_get snd async_retry.
Definition pool_iteration := iteration fifo_get (fun task_id : string => task_id)
                                       (fun task_id : string => task_id).

End Worker.
Import Worker.

(** ** Concrete runs of the notifier *)

Module Runs.

Definition all_fail : Env := mkEnv (fun _ => true) (fun _ => None).
Definition all_succeed : Env := mkEnv (fun _ => false) (fun _ => None).

Definition bob : User := mkUser "8" "Bob" "bob@example.org" None None.

(** A notifier whose breaker has seen five failures, the last at time 0. *)
Definition tripped : Notifier :=
  mkNotifier (mkCB 5 (Some 0) 5 60) [] 15%nat [] [] 0%nat [].

Definition second : Z := us_per_second.

End Runs.

(** ** Concrete runs of the queues *)

Module QueueRuns.

Definition clock0 : nat -> datetime := fun n => Z.of_nat n.
Definition boom : nat -> Outcome string := fun _ => Raise "boom".
Definition fine : nat -> Outcome string := fun _ => Return "ok".

(** A started queue of each kind with nothing in it. *)
Definition idle_async : AsyncQueue.t := AsyncQueue.start AsyncQueue.init.
Definition idle_pool : ThreadPoolQueue.t := ThreadPoolQueue.start ThreadPoolQueue.init.

(** One always-failing task with [max_retries = 1]. *)
Definition async_once : AsyncQueue.t :=
  snd (AsyncQueue.enqueue clock0 "job" boom 0 1 idle_async).
Definition pool_once : ThreadPoolQueue.t :=
  snd (ThreadPoolQueue.enqueue clock0 "job" boom 0 1 idle_pool).

(** A priority-0 task enqueued before a priority-2 task. *)
Definition pool_low_then_high : ThreadPoolQueue.t :=
  snd (ThreadPoolQueue.enqueue clock0 "high" fine 2 3
         (snd (ThreadPoolQueue.enqueue clock0 "low" fine 0 3 idle_pool))).
Definition async_low_then_high : AsyncQueue.t :=
  snd (AsyncQueue.enqueue clock0 "high" fine 2 3
         (snd (AsyncQueue.enqueue clock0 "low" fine 0 3 idle_async))).

End QueueRuns.

(** ** Histories of a circuit breaker *)

Module BreakerTrace.

(** A call of one of the three methods that [add_circuit_breaker]
    installs; [Check] is [is_circuit_open], whose answer is dropped. *)
Inductive Event : Type :=
| Failure (now : datetime)
| Success
| Check (now : datetime).

Definition step (cb : CircuitBreaker) (ev : Event) : CircuitBreaker :=
  match ev with
  | Failure now => record_failure now cb
  | Success => record_success cb
  | Check now => snd (is_circuit_open now cb)
  end.

Definition run (evs : list Event) (cb : CircuitBreaker) : CircuitBreaker :=
  fold_left step evs cb.

(** The number of [record_failure] calls since the last [record_success]. *)
Definition streak_step (n : Z) (ev : Event) : Z :=
  match ev with
  | Failure _ => n + 1
  | Success => 0
  | Check _ => n
  end.

Definition streak (evs : list Event) : Z := fold_left streak_step evs 0.

End BreakerTrace.

(** ** Recipients *)

Module Delivery.

(** The address each channel is given by [notify] and
    [send_all_channels]: [user['email']], [user['id']] or [user['phone']]. *)
Definition recipient (c : Channel) (user : User) : string :=
  match c with
  | Email => u_email user
  | Push => u_id user
  | SMS => default "" (u_phone user)
  end.

(** The dictionary a successful send on channel [c] returns. *)
Definition delivered (message : string) (user : User) (c : Channel)
  : option DeliveryResult :=
  Some (mkResult "success" (channel_name c) (recipient c user) message).

End Delivery.

(** ** The life cycle of queued tasks *)

Module Lifecycle.

(** Waiting for a worker: PENDING or RETRYING. *)
Definition waiting (task : QueuedTask) : bool :=
  match status task with
  | PENDING | RETRYING => true
  | _ => false
  end.

(** Done for good: COMPLETED or FAILED. *)
Definition terminal (task : QueuedTask) : bool :=
  match status task with
  | COMPLETED | FAILED => true
  | _ => false
  end.

(** The number of executions a task record accounts for: one per counted
    failure, and one more when it completed. *)
Definition executions (task : QueuedTask) : nat :=
  (Z.to_nat (retry_count task)
   + match status task with COMPLETED => 1 | _ => 0 end)%nat.

(** A stored result is a value the work returned, a stored error one it
    raised. *)
Definition provenance (task : QueuedTask) : Prop :=
  (forall v, result task = Some v -> exists n, func task n = Return v) /\
  (forall e, error task = Some e -> exists n, func task n = Raise e).

(** What the fields of a task look like between two loop iterations,
    by status. *)
Definition task_at_rest (task : QueuedTask) : Prop :=
  match status task with
  | PENDING =>
      retry_count task = 0 /\ started_at task = None /\ completed_at task = None /\
      result task = None /\ error task = None
  | RETRYING =>
      1 <= retry_count task < max_retries task /\ is_Some (started_at task) /\
      completed_at task = None /\ result task = None /\ is_Some (error task)
  | COMPLETED =>
      0 <= retry_count task /\
      (retry_count task = 0 \/ retry_count task < max_retries task) /\
      is_Some (started_at task) /\ is_Some (completed_at task) /\
      is_Some (result task) /\ (is_Some (error task) <-> 1 <= retry_count task)
  | FAILED =>
      retry_count task = Z.max 1 (max_retries task) /\ is_Some (started_at task) /\
      is_Some (completed_at task) /\ result task = None /\ is_Some (error task)
  | RUNNING => False
  end.

(** The fields of a task that are set by [enqueue] and never written
    again. *)
Definition same_identity (task task' : QueuedTask) : Prop :=
  id task' = id task /\ func task' = func task /\
  max_retries task' = max_retries task /\ priority task' = priority task /\
  created_at task' = created_at task.

(** A task whose work returns whenever it is called. *)
Definition never_raises (task : QueuedTask) : Prop :=
  forall n, raised (func task n) = false.

Section WellFormed.

Context {Item : Type}.
Variable item_id : Item -> string.

(** The state of a queue object between two loop iterations: an id is
    queued at most once, exactly the waiting tasks are queued, every
    registered task is at rest under its own id, and the log of invocations
    agrees with the retry counts. *)
Definition well_formed (self : QueueState Item) : Prop :=
  NoDup (map item_id (queue self)) /\
  (forall i, i ∈ map item_id (queue self) <->
             exists task, tasks self !! i = Some task /\ waiting task = true) /\
  (forall i task, tasks self !! i = Some task ->
                  id task = i /\ task_at_rest task /\ provenance task /\
                  runs i (invoked self) = executions task) /\
  (forall i, tasks self !! i = None -> runs i (invoked self) = 0%nat).

(** Every queued id is registered with work that returns. *)
Definition backlog_returns (self : QueueState Item) : Prop :=
  forall x, x ∈ queue self ->
            exists task, tasks self !! item_id x = Some task /\ never_raises task.

End WellFormed.

(** The states a queue object goes through from its construction, by the
    public methods and the worker loop; [enqueue] draws an id that is not
    registered yet. *)
Inductive async_reachable (clock : nat -> datetime) : AsyncQueue.t -> Prop :=
| async_new : async_reachable clock AsyncQueue.init
| async_started self :
    async_reachable clock self -> async_reachable clock (AsyncQueue.start self)
| async_stopped self :
    async_reachable clock self -> async_reachable clock (AsyncQueue.stop self)
| async_enqueued self task_id work p m :
    async_reachable clock self -> tasks self !! task_id = None ->
    async_reachable clock (snd (AsyncQueue.enqueue clock task_id work p m self))
| async_worked self n :
    async_reachable clock self -> async_reachable clock (AsyncQueue._worker clock n self).

Inductive pool_reachable (clock : nat -> datetime) : ThreadPoolQueue.t -> Prop :=
| pool_new : pool_reachable clock ThreadPoolQueue.init
| pool_started self :
    pool_reachable clock self -> pool_reachable clock (ThreadPoolQueue.start self)
| pool_stopped self :
    pool_reachable clock self -> pool_reachable clock (ThreadPoolQueue.stop self)
| pool_enqueued self task_id work p m :
    pool_reachable clock self -> tasks self !! task_id = None ->
    pool_reachable clock (snd (ThreadPoolQueue.enqueue clock task_id work p m self))
| pool_worked self n :
    pool_reachable clock self ->
    pool_reachable clock (ThreadPoolQueue._worker clock n self).

End Lifecycle.
Import Lifecycle.

(** ** [send_notification_sync]: from the string to the enum member *)

Module NotificationSync.

(** [for et in EmergencyType]: the members in definition order. *)
Definition members : list EmergencyType :=
  [WEATHER; SECURITY; HEALTH; INFRASTRUCTURE; ACADEMIC].

(** The loop that looks [emergency_type] up among the members' values;
    [emergency_enum] is what it was initialised with. *)
Fixpoint lookup (ets : list EmergencyType) (emergency_type : string)
         (emergency_enum : EmergencyType) : EmergencyType :=
  match ets with
  | [] => emergency_enum
  | et :: tl =>
      if String.eqb (value et) emergency_type then et
      else lookup tl emergency_type emergency_enum
  end.

Definition emergency_enum (emergency_type : string) : EmergencyType :=
  lookup members emergency_type ACADEMIC.

End NotificationSync.

(** ** [NotificationTask] *)

Module NotificationTask.

(** The values a field or a dictionary entry may hold; nothing in the
    class checks them. *)
Inductive PyValue : Type :=
| PyNone
| PyInt (z : Z)
| PyStr (s : string).

Record t : Type := mkNotificationTask {
  user_id : PyValue;
  title : PyValue;
  body : PyValue;
  emergency_type : PyValue;
  id : PyValue
}.

Definition set_id (v : PyValue) (self : t) : t :=
  mkNotificationTask (user_id self) (title self) (body self) (emergency_type self) v.

Section Uuid.

(** [uuid4 n] is the string of the [n]-th call of [uuid.uuid4()]; the
    number of calls made so far is threaded through. *)
Variable uuid4 : nat -> string.

(** [NotificationTask(user_id, title, body, emergency_type)]. *)
Definition __init__ (user_id title body emergency_type : PyValue) (drawn : nat)
  : t * nat :=
  (mkNotificationTask user_id title body emergency_type (PyStr (uuid4 drawn)),
   S drawn).

Definition to_dict (self : t) : gmap string PyValue :=
  <["user_id" := user_id self]>
    (<["title" := title self]>
       (<["body" := body self]>
          (<["emergency_type" := emergency_type self]>
             (<["id" := id self]> ∅)))).

(** [data[key]], a [KeyError] when the key is missing. *)
Definition getitem (data : gmap string PyValue) (key : string) : Outcome PyValue :=
  match data !! key with
  | Some v => Return v
  | None => Raise ("'" +:+ key +:+ "'")
  end.

(** [from_dict]: the four subscripts are evaluated in order, then the
    constructor draws an id, then the default of [data.get('id', ...)] is
    evaluated, drawing a second one, whether or not it is used. *)
Definition from_dict (data : gmap string PyValue) (drawn : nat) : Outcome t * nat :=
  match getitem data "user_id" with
  | Raise e => (Raise e, drawn)
  | Return user_id =>
      match getitem data "title" with
      | Raise e => (Raise e, drawn)
      | Return title =>
          match getitem data "body" with
          | Raise e => (Raise e, drawn)
          | Return body =>
              match getitem data "emergency_type" with
              | Raise e => (Raise e, drawn)
              | Return emergency_type =>
                  let '(task, drawn) := __init__ user_id title body emergency_type drawn in
                  let fallback := PyStr (uuid4 drawn) in
                  let drawn := S drawn in
                  (Return (set_id (default fallback (data !! "id")) task), drawn)
              end
          end
      end
  end.

End Uuid.

End NotificationTask.

(** * Properties *)

(** ** Priority resolution *)

(** C6: [get_priority] sends SECURITY and HEALTH to CRITICAL, WEATHER to
    HIGH, INFRASTRUCTURE to MEDIUM, ACADEMIC to LOW, and every object that
    is not a member of [EmergencyType] to LOW. *)
Theorem get_priority_table :
  get_priority (Member SECURITY) = CRITICAL /\
  get_priority (Member HEALTH) = CRITICAL /\
  get_priority (Member WEATHER) = HIGH /\
  get_priority (Member INFRASTRUCTURE) = MEDIUM /\
  get_priority (Member ACADEMIC) = LOW /\
  (forall repr, get_priority (Other repr) = LOW).
Proof. repeat split. Qed.

Lemma get_priority_critical_iff (e : EmergencyType) :
  is_critical (get_priority (Member e)) = true <-> e = SECURITY \/ e = HEALTH.
Proof.
  destruct e; simpl; split; intros H; try discriminate; auto;
    destruct H as [H | H]; discriminate.
Qed.

(** ** Message formatting *)

Example upper_weather : upper (value WEATHER) = "MÉTÉO".
Proof. reflexivity. Qed.

Example format_message_security :
  format_message "Alerte" "Restez chez vous" (Some SECURITY)
  = "[SÉCURITÉ] Alerte" +:+ newline +:+ "Restez chez vous".
Proof. reflexivity. Qed.



(** ** Circuit breaker *)

Section CircuitBreakerFacts.

Implicit Types (cb : CircuitBreaker) (times : list datetime).

Lemma record_failures_snoc times t cb :
  record_failures (times ++ [t]) cb = record_failure t (record_failures times cb).
Proof. unfold record_failures. now rewrite fold_left_app. Qed.

Lemma record_failures_count times cb :
  _circuit_breaker_failures (record_failures times cb)
  = _circuit_breaker_failures cb + Z.of_nat (length times).
Proof.
  induction times as [| t times IH] using rev_ind; simpl; [lia |].
  rewrite record_failures_snoc, length_app. simpl. rewrite IH. lia.
Qed.

Lemma record_failures_config times cb :
  _circuit_breaker_max_failures (record_failures times cb)
  = _circuit_breaker_max_failures cb /\
  _circuit_breaker_timeout (record_failures times cb) = _circuit_breaker_timeout cb.
Proof.
  induction times as [| t times IH] using rev_ind; simpl; [easy |].
  rewrite record_failures_snoc. simpl. exact IH.
Qed.

Lemma record_failures_last times t cb :
  _circuit_breaker_last_failure (record_failures (times ++ [t]) cb) = Some t.
Proof. now rewrite record_failures_snoc. Qed.

(** [.seconds] never exceeds the whole seconds of a non-negative delta. *)
Lemma td_seconds_le (d : timedelta) :
  0 <= d -> 0 <= td_seconds d <= total_seconds_floor d.
Proof.
  intros Hd. unfold td_seconds, total_seconds_floor, us_per_second, seconds_per_day.
  assert (0 <= d / 1000000) by (apply Z.div_pos; lia).
  split; [apply Z.mod_pos_bound; lia | apply Z.mod_le; lia].
Qed.

Lemma td_seconds_small (d : timedelta) :
  0 <= d < us_per_second * seconds_per_day -> td_seconds d = total_seconds_floor d.
Proof.
  unfold td_seconds, total_seconds_floor, us_per_second, seconds_per_day. intros Hd.
  apply Z.mod_small. split; [apply Z.div_pos; lia |].
  apply Z.div_lt_upper_bound; lia.
Qed.

(** First part of the breaker's contract: after [max_failures] failures
    in a row the breaker is open as long as less than [timeout] seconds
    have passed since the last one, and the check writes nothing. *)
Lemma circuit_open_within_timeout times t now cb :
  0 <= _circuit_breaker_failures cb ->
  Z.of_nat (length (times ++ [t])) = _circuit_breaker_max_failures cb ->
  0 <= now - t < _circuit_breaker_timeout cb * us_per_second ->
  is_circuit_open now (record_failures (times ++ [t]) cb)
  = (true, record_failures (times ++ [t]) cb).
Proof.
  intros Hpos Hlen Hnow. unfold is_circuit_open.
  destruct (record_failures_config (times ++ [t]) cb) as [-> ->].
  rewrite record_failures_count, record_failures_last.
  replace (_ <=? _) with true by (symmetry; apply Z.leb_le; lia).
  cbv zeta.
  replace (_ <? _) with true; [reflexivity |].
  symmetry. apply Z.ltb_lt.
  destruct (td_seconds_le (now - t)) as [_ Hle]; [lia |].
  eapply Z.le_lt_trans; [exact Hle |].
  unfold total_seconds_floor. apply Z.div_lt_upper_bound; unfold us_per_second in *; lia.
Qed.

(** Second part, as the code has it: the breaker closes and zeroes its
    count when the [.seconds] component of the elapsed time has reached
    the timeout. *)
Lemma circuit_closes_on_seconds times t now cb :
  0 <= _circuit_breaker_failures cb ->
  Z.of_nat (length (times ++ [t])) = _circuit_breaker_max_failures cb ->
  _circuit_breaker_timeout cb <= td_seconds (now - t) ->
  is_circuit_open now (record_failures (times ++ [t]) cb)
  = (false, mkCB 0 (Some t) (_circuit_breaker_max_failures cb)
                 (_circuit_breaker_timeout cb)).
Proof.
  intros Hpos Hlen Hnow. unfold is_circuit_open.
  destruct (record_failures_config (times ++ [t]) cb) as [-> ->].
  rewrite record_failures_count, record_failures_last.
  replace (_ <=? _) with true by (symmetry; apply Z.leb_le; lia).
  cbv zeta.
  replace (_ <? _) with false; [reflexivity |].
  symmetry. apply Z.ltb_ge. exact Hnow.
Qed.

(** Hence it closes whenever the elapsed time is at least the timeout
    and less than one day. *)
Lemma circuit_closes_within_a_day times t now cb :
  0 <= _circuit_breaker_failures cb ->
  Z.of_nat (length (times ++ [t])) = _circuit_breaker_max_failures cb ->
  _circuit_breaker_timeout cb * us_per_second <= now - t
    < us_per_second * seconds_per_day ->
  0 <= _circuit_breaker_timeout cb ->
  is_circuit_open now (record_failures (times ++ [t]) cb)
  = (false, mkCB 0 (Some t) (_circuit_breaker_max_failures cb)
                 (_circuit_breaker_timeout cb)).
Proof.
  intros Hpos Hlen Hnow Hto. apply circuit_closes_on_seconds; auto.
  rewrite td_seconds_small by (unfold us_per_second in *; lia).
  unfold total_seconds_floor. apply Z.div_le_lower_bound; unfold us_per_second in *; lia.
Qed.

(** Third part: [record_success] zeroes the count and clears the time,
    whatever the state. *)
Lemma record_success_resets cb :
  _circuit_breaker_failures (record_success cb) = 0 /\
  _circuit_breaker_last_failure (record_success cb) = None /\
  fst (is_circuit_open 0 (record_success cb)) = false.
Proof.
  repeat split. unfold is_circuit_open, record_success; simpl.
  now destruct (_ <=? _).
Qed.

(** An open check writes nothing. *)
Lemma is_circuit_open_true_unchanged now cb :
  fst (is_circuit_open now cb) = true -> snd (is_circuit_open now cb) = cb.
Proof.
  unfold is_circuit_open.
  destruct (_ <=? _); [| discriminate].
  destruct (_circuit_breaker_last_failure cb); [| discriminate].
  cbv zeta. destruct (_ <? _); [reflexivity | discriminate].
Qed.

End CircuitBreakerFacts.

(** C2: a breaker with [max_failures = 2] and [timeout = 60] records two
    failures at time 0 and is checked one day and ten seconds later.  The
    elapsed time exceeds the timeout, yet its [.seconds] component is 10,
    so [is_circuit_open] answers open and keeps the count at 2, where the
    breaker should have closed and reset its count. *)
Theorem circuit_still_open_after_a_day :
  let cb := record_failures [0; 0] (Decorators.init 2 60) in
  let now := (seconds_per_day + 10) * us_per_second in
  60 * us_per_second < now - 0 /\
  td_seconds (now - 0) = 10 /\
  is_circuit_open now cb = (true, cb) /\
  _circuit_breaker_failures (snd (is_circuit_open now cb)) = 2.
Proof. cbv zeta. repeat split; try reflexivity. Qed.

(** ** Channel senders and the retry decorator *)

(** Runs a three-attempt sender by cases on the three draws it may read. *)
Ltac send_cases env self :=
  unfold retry_on_failure, retry_loop, send_body; cbn;
  destruct (random_fails env (draws self)); cbn;
  [destruct (random_fails env (S (draws self))); cbn;
   [destruct (random_fails env (S (S (draws self)))); cbn |] |].

Section SenderFacts.

Variable env : Env.
Implicit Types (c : Channel) (self : Notifier).

Lemma draw_n_frame k c self :
  breaker (draw_n k c self) = breaker self /\
  calls (draw_n k c self) = calls self /\
  commits (draw_n k c self) = commits self /\
  notifications (draw_n k c self) = notifications self /\
  _performance_metrics (draw_n k c self) = _performance_metrics self /\
  draws (draw_n k c self) = (draws self + k)%nat /\
  attempts (draw_n k c self) = attempts self ++ replicate k c.
Proof.
  revert self. induction k as [| k IH]; intros self; simpl.
  - rewrite app_nil_r, Nat.add_0_r. tauto.
  - destruct (IH (draw c self)) as (-> & -> & -> & -> & -> & -> & ->). simpl.
    rewrite <- app_assoc. simpl. repeat split. lia.
Qed.

Lemma send_body_raises c message recipient self :
  random_fails env (draws self) = true ->
  send_body env c message recipient self = (Raise (failure_message c), draw c self).
Proof. intros H. unfold send_body. now rewrite H. Qed.

Lemma send_body_returns c message recipient self :
  random_fails env (draws self) = false ->
  send_body env c message recipient self
  = (Return (mkResult "success" (channel_name c) recipient message),
     _track_performance (method_name c) (draw c self)).
Proof. intros H. unfold send_body. now rewrite H. Qed.

(** While the attempt number stays below [retries], failing executions
    only advance the loop. *)
Lemma retry_loop_skip c message recipient retries k :
  forall todo attempt self,
    (forall i, (i < k)%nat -> random_fails env (draws self + i) = true) ->
    (attempt + k <= retries)%nat ->
    retry_loop (send_body env c message recipient) retries (k + todo) attempt self
    = retry_loop (send_body env c message recipient) retries todo (attempt + k)
                 (draw_n k c self).
Proof.
  induction k as [| k IH]; intros todo attempt self Hfail Hle; simpl.
  - now rewrite Nat.add_0_r.
  - rewrite send_body_raises
      by (specialize (Hfail 0%nat); rewrite Nat.add_0_r in Hfail; apply Hfail; lia).
    replace (attempt =? retries)%nat with false
      by (symmetry; apply Nat.eqb_neq; lia).
    rewrite IH.
    + f_equal. lia.
    + intros i Hi. change (draws (draw c self)) with (S (draws self)).
      replace (S (draws self) + i)%nat with (draws self + S i)%nat by lia.
      apply Hfail. lia.
    + lia.
Qed.

Lemma draw_n_snoc k c self : draw_n (S k) c self = draw c (draw_n k c self).
Proof.
  revert self. induction k as [| k IH]; intros self; [reflexivity |].
  change (draw_n (S (S k)) c self) with (draw_n (S k) c (draw c self)).
  now rewrite IH.
Qed.

Lemma draws_draw_n k c self : draws (draw_n k c self) = (draws self + k)%nat.
Proof. apply draw_n_frame. Qed.

(** The wrapped sender returns as soon as one execution succeeds: if the
    first [k] executions raise and the next one does not, with
    [k < retries], the result is that of execution [k + 1]. *)
Lemma retry_on_failure_succeeds c message recipient retries k self :
  (k < retries)%nat ->
  (forall i, (i < k)%nat -> random_fails env (draws self + i) = true) ->
  random_fails env (draws self + k) = false ->
  retry_on_failure retries (send_body env c message recipient) self
  = (Return (Some (mkResult "success" (channel_name c) recipient message)),
     _track_performance (method_name c) (draw_n (S k) c self)).
Proof.
  intros Hk Hfail Hok. unfold retry_on_failure.
  replace (retry_loop (send_body env c message recipient) retries retries 1 self)
    with (retry_loop (send_body env c message recipient) retries
                     (k + S (retries - S k)) 1 self) by (f_equal; lia).
  rewrite retry_loop_skip by (auto; lia).
  rewrite draw_n_snoc.
  cbn [retry_loop]. rewrite send_body_returns; [reflexivity |].
  rewrite draws_draw_n. exact Hok.
Qed.

(** The exception escapes only when all [retries] executions raised. *)
Lemma retry_on_failure_exhausted c message recipient retries self :
  (1 <= retries)%nat ->
  (forall i, (i < retries)%nat -> random_fails env (draws self + i) = true) ->
  retry_on_failure retries (send_body env c message recipient) self
  = (Raise (failure_message c), draw_n retries c self).
Proof.
  intros Hr Hfail. unfold retry_on_failure.
  destruct retries as [| r]; [lia |].
  replace (retry_loop (send_body env c message recipient) (S r) (S r) 1 self)
    with (retry_loop (send_body env c message recipient) (S r) (r + 1) 1 self)
    by (f_equal; lia).
  rewrite retry_loop_skip by (try lia; intros i Hi; apply Hfail; lia).
  rewrite draw_n_snoc.
  cbn [retry_loop]. rewrite send_body_raises.
  - replace (1 + r =? S r)%nat with true by (symmetry; apply Nat.eqb_eq; lia).
    reflexivity.
  - rewrite draws_draw_n. apply Hfail. lia.
Qed.

(** With no budget at all the body is never run and [None] comes back. *)
Lemma retry_on_failure_zero c message recipient self :
  retry_on_failure 0 (send_body env c message recipient) self = (Return None, self).
Proof. reflexivity. Qed.

Lemma send_unfold c message recipient self :
  send env c message recipient self
  = retry_on_failure 3 (send_body env c message recipient) (log_call c self).
Proof. destruct c; reflexivity. Qed.

(** What one call of a decorated sender does to the notifier, whatever
    the draws: it is logged once, its body runs between one and three
    times, and the breaker and the database are not touched. *)
Lemma send_effect c message recipient self :
  exists k, (1 <= k <= 3)%nat /\
    calls (snd (send env c message recipient self)) = calls self ++ [c] /\
    attempts (snd (send env c message recipient self)) = attempts self ++ replicate k c /\
    breaker (snd (send env c message recipient self)) = breaker self /\
    commits (snd (send env c message recipient self)) = commits self /\
    notifications (snd (send env c message recipient self)) = notifications self.
Proof.
  rewrite send_unfold. send_cases env self.
  all: [> exists 3%nat | exists 3%nat | exists 2%nat | exists 1%nat].
  all: cbn; rewrite <- ?app_assoc; cbn; repeat split; solve [lia | reflexivity].
Qed.

End SenderFacts.


(** ** The notifier *)


Section NotifierFacts.

Variable env : Env.
Implicit Types (self : Notifier) (user : User) (e : EmergencyType).

Lemma set_breaker_same self : set_breaker (breaker self) self = self.
Proof. now destruct self. Qed.




(** A rejected call returns before the [try] block. *)
Lemma notify_rejected (t_check t_fail : datetime) user (title body : string) e self :
  fst (is_circuit_open t_check (breaker self)) = true ->
  notify env t_check t_fail user title body e self = (Raise circuit_open_error, self).
Proof.
  intros Hopen. unfold notify.
  pose proof (is_circuit_open_true_unchanged _ _ Hopen) as Hsame.
  destruct (is_circuit_open t_check (breaker self)) as [b cb]. simpl in *.
  subst b cb. now rewrite set_breaker_same.
Qed.

End NotifierFacts.


(** C9: a call rejected by the open breaker raises the circuit-open
    error and leaves the notifier as it was: the failure count and the time
    of the last failure keep their values, nothing is sent and nothing
    is archived. *)
Theorem rejected_notify_changes_nothing (env : Env) (t_check t_fail : datetime)
        (user : User) (title body : string) (e : EmergencyType) (self : Notifier) :
  fst (is_circuit_open t_check (breaker self)) = true ->
  let out := notify env t_check t_fail user title body e self in
  fst out = Raise circuit_open_error /\
  snd out = self /\
  _circuit_breaker_failures (breaker (snd out))
  = _circuit_breaker_failures (breaker self) /\
  _circuit_breaker_last_failure (breaker (snd out))
  = _circuit_breaker_last_failure (breaker self).
Proof.
  intros Hopen. cbv zeta. rewrite notify_rejected by exact Hopen. easy.
Qed.

(** Reads a field through the update functions, one layer at a time. *)
Ltac norm_notifier :=
  cbn [breaker _performance_metrics draws calls attempts commits notifications
       set_breaker draw log_call _track_performance count_commit add_row draw_n
       fst snd].

Lemma notifier_eq (a b : Notifier) :
  breaker a = breaker b ->
  _performance_metrics a = _performance_metrics b ->
  draws a = draws b ->
  calls a = calls b ->
  attempts a = attempts b ->
  commits a = commits b ->
  notifications a = notifications b ->
  a = b.
Proof. destruct a, b; simpl; intros; subst; reflexivity. Qed.

Section BreakerAccounting.

Variable env : Env.
Implicit Types (self : Notifier) (user : User) (e : EmergencyType).

(** A call that goes through while every send fails, for a priority
    other than CRITICAL: three executions of the one channel, then
    [record_failure]. *)
Lemma notify_delivery_fails (t_check t_fail : datetime) user (title body : string)
      e self :
  (forall n, random_fails env n = true) ->
  is_critical (get_priority (Member e)) = false ->
  fst (is_circuit_open t_check (breaker self)) = false ->
  let c := if prefers_email user then Email else Push in
  notify env t_check t_fail user title body e self
  = (Raise (failure_message c),
     mkNotifier (record_failure t_fail (snd (is_circuit_open t_check (breaker self))))
                (_performance_metrics self) (draws self + 3)%nat
                (calls self ++ [c]) (attempts self ++ [c; c; c])
                (commits self) (notifications self)).
Proof.
  intros Hfail Hp Hclosed. cbv zeta. unfold notify, notify_try.
  destruct (is_circuit_open t_check (breaker self)) as [b cb]. simpl in Hclosed. subst b.
  rewrite Hp. generalize (format_message title body (Some e)) as message.
  intros message. cbn [snd].
  change (send_email env) with (send env Email).
  change (send_push env) with (send env Push).
  destruct (prefers_email user); rewrite send_unfold;
    rewrite retry_on_failure_exhausted by (auto; lia);
    (f_equal; apply notifier_eq; norm_notifier; rewrite <- ?app_assoc;
     solve [reflexivity | lia]).
Qed.



End BreakerAccounting.


Section FiveFailures.

Variable env : Env.
Variables (user : User) (title body : string) (e : EmergencyType).
Hypothesis all_fail : forall n, random_fails env n = true.
Hypothesis not_critical : is_critical (get_priority (Member e)) = false.

(** One failing call on the breaker of [AcademicNotifier] while it has
    counted [k < 5] failures. *)
Lemma failing_call (k : Z) (last : option datetime) (pm : list string) (d : nat)
      (cl tr : list Channel) (cm : nat) (rows : list NotificationRow)
      (t_check t_fail : datetime) :
  k < 5 ->
  let c := if prefers_email user then Email else Push in
  notify env t_check t_fail user title body e
         (mkNotifier (mkCB k last 5 60) pm d cl tr cm rows)
  = (Raise (failure_message c),
     mkNotifier (mkCB (k + 1) (Some t_fail) 5 60) pm (d + 3)%nat
                (cl ++ [c]) (tr ++ [c; c; c]) cm rows).
Proof.
  intros Hk. cbv zeta.
  assert (is_circuit_open t_check (mkCB k last 5 60) = (false, mkCB k last 5 60)) as Hc.
  { unfold is_circuit_open. cbn [_circuit_breaker_failures _circuit_breaker_max_failures].
    now replace (5 <=? k) with false by (symmetry; apply Z.leb_gt; lia). }
  rewrite notify_delivery_fails; auto.
  - cbn [breaker]. now rewrite Hc.
  - cbn [breaker]. now rewrite Hc.
Qed.

End FiveFailures.

(** C3: with the breaker of [AcademicNotifier] ([max_failures = 5],
    [timeout = 60]) and every send failing, each of the first five calls of
    [notify] for a priority other than CRITICAL attempts delivery (three
    executions of the chosen channel) and raises the delivery error; the
    count is then 5, and the sixth call, made while the [.seconds] of the
    time since the fifth failure is below 60, raises the circuit-open
    error without sending anything. *)
Theorem breaker_rejects_sixth_call (env : Env) (user : User) (title body : string)
        (e : EmergencyType) (rows : list NotificationRow)
        (a1 b1 a2 b2 a3 b3 a4 b4 a5 b5 a6 b6 : datetime) :
  (forall n, random_fails env n = true) ->
  is_critical (get_priority (Member e)) = false ->
  td_seconds (a6 - b5) < 60 ->
  let c := if prefers_email user then Email else Push in
  let five := notify_each env [(a1, b1); (a2, b2); (a3, b3); (a4, b4); (a5, b5)]
                          user title body e (AcademicNotifier rows) in
  fst five = replicate 5 (Raise (failure_message c)) /\
  calls (snd five) = replicate 5 c /\
  attempts (snd five) = replicate 15 c /\
  breaker (snd five) = mkCB 5 (Some b5) 5 60 /\
  notify env a6 b6 user title body e (snd five) = (Raise circuit_open_error, snd five).
Proof.
  intros Hfail Hp Hwindow. cbv zeta.
  unfold AcademicNotifier, Decorators.init. cbn [notify_each].
  do 5 (rewrite (failing_call env user title body e Hfail Hp) by lia;
        cbn [notify_each fst snd]).
  repeat split.
  apply notify_rejected. cbn [breaker].
  unfold is_circuit_open.
  cbn [_circuit_breaker_failures _circuit_breaker_max_failures
       _circuit_breaker_last_failure _circuit_breaker_timeout].
  replace (5 <=? 0 + 1 + 1 + 1 + 1 + 1) with true by reflexivity.
  cbv zeta.
  now replace (td_seconds (a6 - b5) <? 60) with true by (symmetry; apply Z.ltb_lt; lia).
Qed.



Lemma rejected_notify_changes_nothing_witness :
  fst (is_circuit_open (10 * Runs.second) (breaker Runs.tripped)) = true /\
  snd (notify Runs.all_succeed (10 * Runs.second) (10 * Runs.second) Runs.bob
              "Cours" "Salle B12" ACADEMIC Runs.tripped)
  = Runs.tripped.
Proof.
  split; [reflexivity |].
  destruct (rejected_notify_changes_nothing
              Runs.all_succeed (10 * Runs.second) (10 * Runs.second) Runs.bob
              "Cours" "Salle B12" ACADEMIC Runs.tripped eq_refl) as (_ & H & _).
  exact H.
Defined.


Lemma breaker_rejects_sixth_call_witness :
  (forall n, random_fails Runs.all_fail n = true) /\
  is_critical (get_priority (Member WEATHER)) = false /\
  td_seconds (30 * Runs.second - 5) < 60 /\
  fst (notify Runs.all_fail (30 * Runs.second) (30 * Runs.second) Runs.bob
              "Orage" "Restez à l'abri" WEATHER
              (snd (notify_each Runs.all_fail [(1, 1); (2, 2); (3, 3); (4, 4); (5, 5)]
                                Runs.bob "Orage" "Restez à l'abri" WEATHER
                                (AcademicNotifier []))))
  = Raise circuit_open_error.
Proof.
  split; [reflexivity |]. split; [reflexivity |]. split; [reflexivity |].
  destruct (breaker_rejects_sixth_call
              Runs.all_fail Runs.bob "Orage" "Restez à l'abri" WEATHER []
              1 1 2 2 3 3 4 4 5 5 (30 * Runs.second) (30 * Runs.second)
              (fun _ => eq_refl) eq_refl eq_refl) as (_ & _ & _ & _ & H).
  exact (f_equal fst H).
Defined.

(** C3, as stated, fails: with [max_failures = 5] and every send failing,
    the fifth call in a row still executes its channel three times and
    raises the delivery error, which is not the circuit-open error. *)
Lemma fifth_call_still_attempts_delivery :
  let calls4 := [(1, 1); (2, 2); (3, 3); (4, 4)] in
  let after4 := snd (notify_each Runs.all_fail calls4 Runs.bob "Orage" "Abri" WEATHER
                                 (AcademicNotifier [])) in
  let fifth := notify Runs.all_fail 5 5 Runs.bob "Orage" "Abri" WEATHER after4 in
  fst fifth = Raise (failure_message Email) /\
  raised (fst fifth) = true /\
  String.eqb (failure_message Email) circuit_open_error = false /\
  attempts (snd fifth) = attempts after4 ++ [Email; Email; Email] /\
  _circuit_breaker_failures (breaker after4) = 4 /\
  _circuit_breaker_failures (breaker (snd fifth)) = 5.
Proof. cbv zeta. repeat split. Qed.

(** ** The worker loop, for both queues *)

(** Reads a field of a queue object through the update functions. *)
Ltac norm_queue :=
  unfold tick, set_task, set_queue, log_invocation, set_running;
  cbn [queue tasks running invoked ticks].

Section WorkerFacts.

Context {Item : Type}.
Variable get : list Item -> option (Item * list Item).
Variable item_id : Item -> string.
Variable retry_item : string -> Item.
Variable clock : nat -> datetime.

Hypothesis get_none : forall q, get q = None -> q = [].
Hypothesis get_some : forall q x q', get q = Some (x, q') -> q ≡ₚ x :: q'.
Hypothesis retry_item_id : forall task_id, item_id (retry_item task_id) = task_id.

Implicit Types (self : QueueState Item) (task : QueuedTask).

Local Abbreviation run_task := (Worker.run_task retry_item clock).
Local Abbreviation iteration := (Worker.iteration get item_id retry_item clock).
Local Abbreviation iterations := (Worker.iterations get item_id retry_item clock).
Local Abbreviation run_end := (Worker.run_end retry_item).
Local Abbreviation iteration_end := (Worker.iteration_end item_id retry_item).
Local Abbreviation load := (Worker.load item_id).

Lemma run_task_registered task_id self task :
  tasks self !! task_id = Some task ->
  exists task' q' ticks',
    run_task task_id self
    = mkQueue q' (<[task_id := task']> (tasks self)) (running self)
              (invoked self ++ [task_id]) ticks' /\
    func task' = func task /\ max_retries task' = max_retries task /\
    run_end task task' (queue self) q' task_id (length (invoked self)).
Proof.
  intros Hreg. unfold Worker.run_task. rewrite Hreg. cbv zeta.
  cbn [tick set_task log_invocation invoked queue tasks running ticks start_task func].
  destruct (func task (length (invoked self))) as [v | e] eqn:Hcall.
  - eexists _, _, _. split; [| split; [| split]].
    + norm_queue.
      rewrite insert_insert_eq. reflexivity.
    + reflexivity.
    + reflexivity.
    + eapply run_completed; eauto.
  - cbn [note_error retry_count max_retries start_task].
    destruct (retry_count task + 1 <? max_retries task) eqn:Hlt.
    + eexists _, _, _. split; [| split; [| split]].
      * norm_queue.
        rewrite insert_insert_eq. reflexivity.
      * reflexivity.
      * reflexivity.
      * eapply run_retrying; eauto. apply Z.ltb_lt. exact Hlt.
    + eexists _, _, _. split; [| split; [| split]].
      * norm_queue.
        rewrite insert_insert_eq. reflexivity.
      * reflexivity.
      * reflexivity.
      * eapply run_failed; eauto. apply Z.ltb_ge. exact Hlt.
Qed.

Lemma iteration_cases self : iteration_end self (iteration self).
Proof.
  unfold Worker.iteration. destruct (get (queue self)) as [[x q'] |] eqn:Hget.
  - apply get_some in Hget.
    destruct (tasks self !! item_id x) as [task |] eqn:Hreg.
    + destruct (run_task_registered (item_id x) (set_queue q' self) task Hreg)
        as (task' & q'' & ticks' & -> & Hf & Hm & Hend).
      cbn [set_queue queue tasks running invoked ticks] in *.
      eapply iter_run; eauto.
    + unfold Worker.run_task. cbn [set_queue tasks]. rewrite Hreg. eapply iter_skip; eauto.
  - apply get_none in Hget. now apply iter_idle.
Qed.

Lemma iteration_running self : running (iteration self) = running self.
Proof. destruct (iteration_cases self); reflexivity. Qed.

Lemma iterations_running n self : running (iterations n self) = running self.
Proof.
  revert self. induction n as [| n IH]; intros self; [reflexivity |].
  simpl. now rewrite IH, iteration_running.
Qed.

Lemma iterations_plus n m self :
  iterations (n + m) self = iterations m (iterations n self).
Proof. revert self. induction n as [| n IH]; intros self; simpl; auto. Qed.

(** The log of invocations only grows. *)
Lemma iteration_invoked self :
  exists l, invoked (iteration self) = invoked self ++ l.
Proof.
  destruct (iteration_cases self).
  - exists []. now rewrite app_nil_r.
  - exists []. cbn. now rewrite app_nil_r.
  - eexists. reflexivity.
Qed.

Lemma iterations_invoked n self :
  exists l, invoked (iterations n self) = invoked self ++ l.
Proof.
  revert self. induction n as [| n IH]; intros self.
  - exists []. simpl. now rewrite app_nil_r.
  - simpl. destruct (IH (iteration self)) as [l ->].
    destruct (iteration_invoked self) as [l' ->].
    exists (l' ++ l). now rewrite app_assoc.
Qed.

Lemma iteration_idle self : queue self = [] -> iteration self = self.
Proof.
  intros Hq. unfold Worker.iteration. destruct (get (queue self)) as [[x q'] |] eqn:Hget; auto.
  apply get_some in Hget. rewrite Hq in Hget.
  now apply Permutation_nil_cons in Hget.
Qed.

Lemma iterations_idle n self : queue self = [] -> iterations n self = self.
Proof.
  intros Hq. induction n as [| n IH]; [reflexivity |].
  simpl. now rewrite iteration_idle.
Qed.

(** *** Every queued id is served after finitely many iterations *)

Lemma list_sum_perm (l l' : list nat) : l ≡ₚ l' -> list_sum l = list_sum l'.
Proof.
  induction 1 as [| x l l' _ IH | x y l | l l' l'' _ IH1 _ IH2]; simpl; lia.
Qed.

Lemma list_sum_map_le {A : Type} (f g : A -> nat) (l : list A) :
  (forall x, (f x <= g x)%nat) -> (list_sum (map f l) <= list_sum (map g l))%nat.
Proof.
  intros Hle. induction l as [| x l IH]; simpl; [lia |].
  specialize (Hle x). lia.
Qed.

Lemma weight_pos m task_id : (1 <= weight m task_id)%nat.
Proof. unfold weight. destruct (m !! task_id); lia. Qed.

Lemma weight_insert_le m task_id task task' :
  m !! task_id = Some task ->
  max_retries task' = max_retries task ->
  retry_count task <= retry_count task' ->
  forall j, (weight (<[task_id := task']> m) j <= weight m j)%nat.
Proof.
  intros Hreg Hm Hrc j. unfold weight.
  destruct (decide (task_id = j)) as [<- | Hne].
  - rewrite lookup_insert_eq, Hreg. lia.
  - rewrite lookup_insert_ne by exact Hne. lia.
Qed.

Lemma load_perm self x q' :
  queue self ≡ₚ x :: q' ->
  load self
  = (weight (tasks self) (item_id x)
     + list_sum (map (fun y => weight (tasks self) (item_id y)) q'))%nat.
Proof.
  intros Hperm. unfold Worker.load.
  rewrite (list_sum_perm _ (map (fun y => weight (tasks self) (item_id y)) (x :: q'))).
  - reflexivity.
  - now apply Permutation_map.
Qed.

Lemma load_decreases self :
  queue self <> [] -> (load (iteration self) < load self)%nat.
Proof.
  intros Hne.
  destruct (iteration_cases self)
    as [Hq | x q' Hperm Hnone | x q' task task' q'' ticks' Hperm Hreg Hf Hm Hend];
    [contradiction | |].
  - rewrite (load_perm self x q' Hperm). unfold Worker.load. cbn [set_queue queue tasks].
    pose proof (weight_pos (tasks self) (item_id x)). lia.
  - rewrite (load_perm self x q' Hperm). unfold Worker.load. cbn [queue tasks].
    assert (Hw : forall j, (weight (<[item_id x := task']> (tasks self)) j
                            <= weight (tasks self) j)%nat).
    { apply (weight_insert_le _ _ task); auto. destruct Hend; lia. }
    pose proof (list_sum_map_le
                  (fun y => weight (<[item_id x := task']> (tasks self)) (item_id y))
                  (fun y => weight (tasks self) (item_id y)) q'
                  (fun y => Hw (item_id y))) as Hsum.
    pose proof (weight_pos (tasks self) (item_id x)) as Hpos.
    destruct Hend as [v _ _ _ -> | e _ Hrc Hlt _ -> | e _ _ _ _ ->]; try lia.
    rewrite map_app, list_sum_app. cbn [map list_sum fold_right]. rewrite retry_item_id.
    assert (weight (<[item_id x := task']> (tasks self)) (item_id x)
            = S (Z.to_nat (max_retries task' - retry_count task' - 1))) as ->
        by (unfold weight; now rewrite lookup_insert_eq).
    assert (weight (tasks self) (item_id x)
            = S (Z.to_nat (max_retries task - retry_count task - 1))) as ->
        by (unfold weight; now rewrite Hreg).
    rewrite Hm, Hrc. lia.
Qed.

Lemma load_zero self : load self = 0%nat -> queue self = [].
Proof.
  unfold Worker.load. destruct (queue self) as [| x q]; [reflexivity |].
  cbn [map list_sum fold_right]. pose proof (weight_pos (tasks self) (item_id x)). lia.
Qed.

(** After [load self] iterations the ready queue is empty, and it stays
    empty. *)
Lemma iterations_drain n self :
  (load self <= n)%nat -> queue (iterations n self) = [].
Proof.
  revert self. induction n as [| n IH]; intros self Hload.
  - cbn [Worker.iterations]. apply load_zero. lia.
  - destruct (queue self) as [| x q] eqn:Hq.
    + rewrite iterations_idle; auto.
    + simpl. apply IH.
      assert (queue self <> []) as Hne by (rewrite Hq; discriminate).
      pose proof (load_decreases self Hne). lia.
Qed.

(** *** The fate of one task that always fails *)

Section Target.

Variable target : string.
Variable N : Z.
Variable base : nat.

Local Abbreviation occ := (Worker.occ item_id target).
Local Abbreviation runs := (Worker.runs target).
Local Abbreviation target_state := (Worker.target_state item_id target N base).

Lemma occ_perm q q' : q ≡ₚ q' -> occ q = occ q'.
Proof. intros H. unfold Worker.occ. now rewrite H. Qed.

Lemma occ_cons x q :
  occ (x :: q) = ((if decide (item_id x = target) then 1 else 0) + occ q)%nat.
Proof. unfold Worker.occ. rewrite filter_cons. now destruct (decide _). Qed.

Lemma occ_snoc x q :
  occ (q ++ [x]) = (occ q + (if decide (item_id x = target) then 1 else 0))%nat.
Proof.
  unfold Worker.occ. rewrite filter_app, length_app, filter_cons.
  now destruct (decide _).
Qed.

Lemma runs_snoc i l :
  runs (l ++ [i]) = (runs l + (if decide (i = target) then 1 else 0))%nat.
Proof.
  unfold Worker.runs. rewrite filter_app, length_app, filter_cons.
  now destruct (decide _).
Qed.

Lemma target_state_step self : target_state self -> target_state (iteration self).
Proof.
  intros Hst.
  destruct (iteration_cases self)
    as [Hq | x q' Hperm Hnone | x q' task task' q'' ticks' Hperm Hreg Hf Hm Hend];
    [exact Hst | |].
  - (* an id that is not registered cannot be the target *)
    assert (item_id x <> target) as Hne
        by (intros Heq; rewrite Heq in Hnone; destruct Hst; congruence).
    pose proof (occ_perm _ _ Hperm) as Hocc. rewrite occ_cons in Hocc.
    destruct (decide (item_id x = target)); [contradiction |].
    destruct Hst as [tk H1 H2 H3 H4 H5 H6 | tk H1 H2 H3 H4 H5].
    + eapply target_queued; eauto. cbn [set_queue queue]. lia.
    + eapply target_failed; eauto. cbn [set_queue queue]. lia.
  - pose proof (occ_perm _ _ Hperm) as Hocc. rewrite occ_cons in Hocc.
    destruct (decide (item_id x = target)) as [Heq | Hne].
    + (* the target itself runs *)
      destruct Hst as [tk H1 H2 H3 H4 H5 H6 | tk H1 H2 H3 H4 H5]; [| lia].
      rewrite Heq in *. assert (tk = task) as -> by congruence.
      destruct Hend as [v Hcall _ _ _ | e _ Hrc Hlt Hs -> | e _ Hrc Hge Hs ->].
      * specialize (H2 (length (invoked self))). rewrite Hcall in H2. discriminate.
      * eapply target_queued.
        -- cbn [tasks]. apply lookup_insert_eq.
        -- intros n. rewrite Hf. apply H2.
        -- congruence.
        -- cbn [queue]. rewrite occ_snoc, retry_item_id.
           destruct (decide (target = target)); [lia | contradiction].
        -- lia.
        -- cbn [invoked]. rewrite runs_snoc, H6, Hrc.
           destruct (decide (target = target)); [| contradiction].
           rewrite Z2Nat.inj_add by lia. simpl. lia.
      * eapply target_failed.
        -- cbn [tasks]. apply lookup_insert_eq.
        -- cbn [queue]. lia.
        -- exact Hs.
        -- lia.
        -- cbn [invoked]. rewrite runs_snoc, H6.
           destruct (decide (target = target)); [| contradiction].
           replace N with (retry_count task + 1) by lia.
           rewrite Z2Nat.inj_add by lia. simpl. lia.
    + (* another task runs *)
      assert (occ q'' = occ q') as Hq''.
      { destruct Hend as [v _ _ _ -> | e _ _ _ _ -> | e _ _ _ _ ->]; auto.
        rewrite occ_snoc, retry_item_id.
        destruct (decide (item_id x = target)); [contradiction | lia]. }
      destruct Hst as [tk H1 H2 H3 H4 H5 H6 | tk H1 H2 H3 H4 H5].
      * eapply target_queued; eauto.
        -- cbn [tasks]. rewrite lookup_insert_ne by exact Hne. exact H1.
        -- cbn [queue]. lia.
        -- cbn [invoked]. rewrite runs_snoc.
           destruct (decide (item_id x = target)); [contradiction | lia].
      * eapply target_failed; eauto.
        -- cbn [tasks]. rewrite lookup_insert_ne by exact Hne. exact H1.
        -- cbn [queue]. lia.
        -- cbn [invoked]. rewrite runs_snoc.
           destruct (decide (item_id x = target)); [contradiction | lia].
Qed.

Lemma target_state_steps n self : target_state self -> target_state (iterations n self).
Proof.
  revert self. induction n as [| n IH]; intros self Hst; [exact Hst |].
  simpl. apply IH, target_state_step, Hst.
Qed.

(** From [load self] iterations on, the target is FAILED with [N]
    retries counted and [N] invocations made. *)
Lemma target_fails n self :
  target_state self -> (load self <= n)%nat ->
  exists task,
    tasks (iterations n self) !! target = Some task /\
    status task = FAILED /\ retry_count task = N /\
    runs (invoked (iterations n self)) = (base + Z.to_nat N)%nat.
Proof.
  intros Hst Hload.
  pose proof (iterations_drain n self Hload) as Hq.
  destruct (target_state_steps n self Hst) as [tk H1 H2 H3 H4 H5 H6 | tk H1 H2 H3 H4 H5].
  - rewrite Hq in H4. discriminate.
  - exists tk. auto.
Qed.

End Target.

(** The task at the head of the queue is the next one invoked. *)
Lemma iteration_runs_head self x q' task :
  get (queue self) = Some (x, q') ->
  tasks self !! item_id x = Some task ->
  invoked (iteration self) = invoked self ++ [item_id x].
Proof.
  intros Hget Hreg. unfold Worker.iteration. rewrite Hget.
  destruct (run_task_registered (item_id x) (set_queue q' self) task Hreg)
    as (task' & q'' & ticks' & -> & _).
  reflexivity.
Qed.

Lemma iterations_first_run n self x q' task :
  get (queue self) = Some (x, q') ->
  tasks self !! item_id x = Some task ->
  exists l, invoked (iterations (S n) self) = invoked self ++ item_id x :: l.
Proof.
  intros Hget Hreg. cbn [Worker.iterations].
  destruct (iterations_invoked n (iteration self)) as [l ->].
  rewrite (iteration_runs_head self x q' task Hget Hreg), <- app_assoc.
  now exists l.
Qed.

Lemma occ_absent target (q : list Item) :
  target ∉ map item_id q -> Worker.occ item_id target q = 0%nat.
Proof.
  induction q as [| x q IH]; intros Hnot; [reflexivity |].
  rewrite occ_cons. rewrite map_cons, not_elem_of_cons in Hnot.
  destruct Hnot as [Hne Hnot].
  destruct (decide (item_id x = target)); [congruence |].
  now rewrite IH.
Qed.

End WorkerFacts.

(** ** The two ready queues *)

Lemma extract_min_perm (x : Z * string) (l : list (Z * string)) :
  x :: l ≡ₚ (extract_min x l).1 :: (extract_min x l).2.
Proof.
  revert x. induction l as [| y l IH]; intros x; [reflexivity |].
  cbn [extract_min]. specialize (IH y).
  destruct (extract_min y l) as [m rest]. cbn [fst snd] in IH.
  destruct (item_ltb m x); cbn [fst snd]; [| reflexivity].
  rewrite IH. apply perm_swap.
Qed.

(** [extract_min] returns an item whose first component, the negated
    priority, is least. *)
Lemma extract_min_least (x : Z * string) (l : list (Z * string)) :
  forall y, y ∈ x :: l -> (extract_min x l).1.1 <= y.1.
Proof.
  revert x. induction l as [| z l IH]; intros x y Hy.
  - apply list_elem_of_singleton in Hy. subst. reflexivity.
  - cbn [extract_min]. specialize (IH z).
    destruct (extract_min z l) as [m rest]. cbn [fst snd] in IH.
    assert (forall y, y ∈ z :: l -> m.1 <= y.1) as Hm by exact IH.
    destruct (item_ltb m x) eqn:Hlt; cbn [fst snd]; unfold item_ltb in Hlt;
      apply elem_of_cons in Hy as [-> | Hy].
    + apply orb_true_iff in Hlt as [Hlt | Hlt]; [lia |].
      apply andb_true_iff in Hlt as [Hlt _]. lia.
    + auto.
    + reflexivity.
    + apply orb_false_iff in Hlt as [Hlt _].
      specialize (Hm y Hy). lia.
Qed.

Lemma pq_get_none (q : list (Z * string)) : pq_get q = None -> q = [].
Proof. destruct q; [reflexivity | discriminate]. Qed.

Lemma pq_get_some (q : list (Z * string)) x q' : pq_get q = Some (x, q') -> q ≡ₚ x :: q'.
Proof.
  destruct q as [| y l]; [discriminate |]. cbn [pq_get]. intros [= H].
  pose proof (extract_min_perm y l) as Hp. now rewrite H in Hp.
Qed.

Lemma fifo_get_none (q : list string) : fifo_get q = None -> q = [].
Proof. destruct q; [reflexivity | discriminate]. Qed.

Lemma fifo_get_some (q : list string) x q' : fifo_get q = Some (x, q') -> q ≡ₚ x :: q'.
Proof. destruct q as [| y l]; [discriminate |]. now intros [= -> ->]. Qed.

Lemma queue_state_eq {Item : Type} (a b : QueueState Item) :
  queue a = queue b -> tasks a = tasks b -> running a = running b ->
  invoked a = invoked b -> ticks a = ticks b -> a = b.
Proof. destruct a, b; simpl; intros; subst; reflexivity. Qed.

(** Reads the fields of a queue object one update at a time. *)
Ltac read_queue :=
  cbn [queue tasks running invoked ticks
       tick set_task set_queue log_invocation set_running].

(** Both [_worker] loops are instances of [Worker.iteration]. *)
Lemma async_worker_iteration_eq clock (self : AsyncQueue.t) :
  AsyncQueue.worker_iteration clock self = async_iteration clock self.
Proof.
  unfold AsyncQueue.worker_iteration, async_iteration, iteration, run_task.
  destruct (pq_get (queue self)) as [[[k task_id] q'] |]; reflexivity.
Qed.

Lemma pool_worker_iteration_eq clock (self : ThreadPoolQueue.t) :
  ThreadPoolQueue.worker_iteration clock self = pool_iteration clock self.
Proof.
  unfold ThreadPoolQueue.worker_iteration, pool_iteration, iteration, run_task.
  destruct (fifo_get (queue self)) as [[task_id q'] |]; [| reflexivity].
  destruct (tasks (set_queue q' self) !! task_id) as [task |]; [| reflexivity].
  cbv zeta.
  destruct (func _ _) as [v | e]; [reflexivity |].
  destruct (_ <? _); apply queue_state_eq; read_queue;
    rewrite ?insert_insert_eq; reflexivity.
Qed.

Lemma async_worker_eq clock n (self : AsyncQueue.t) :
  running self = true ->
  AsyncQueue._worker clock n self
  = iterations pq_get snd async_retry clock n self.
Proof.
  revert self. induction n as [| n IH]; intros self Hrun; [reflexivity |].
  cbn [AsyncQueue._worker iterations]. rewrite Hrun, async_worker_iteration_eq.
  apply IH. unfold async_iteration.
  now rewrite (iteration_running pq_get snd async_retry clock pq_get_none pq_get_some).
Qed.

Lemma pool_worker_eq clock n (self : ThreadPoolQueue.t) :
  running self = true ->
  ThreadPoolQueue._worker clock n self
  = iterations fifo_get (fun t : string => t) (fun t : string => t) clock n self.
Proof.
  revert self. induction n as [| n IH]; intros self Hrun; [reflexivity |].
  cbn [ThreadPoolQueue._worker iterations]. rewrite Hrun, pool_worker_iteration_eq.
  apply IH. unfold pool_iteration.
  now rewrite (iteration_running fifo_get _ _ clock fifo_get_none fifo_get_some).
Qed.

(** ** Retries of a task that always fails *)

Section AlwaysFailing.

Variable clock : nat -> datetime.
Variables (task_id : string) (work : nat -> Outcome string) (p N : Z).
Hypothesis N_pos : 1 <= N.
Hypothesis work_raises : forall n, raised (work n) = true.

Lemma async_enqueued_target (self : AsyncQueue.t) :
  task_id ∉ map snd (queue self) ->
  target_state snd task_id N (runs task_id (invoked self))
               (snd (AsyncQueue.enqueue clock task_id work p N self)).
Proof.
  intros Hfresh. unfold AsyncQueue.enqueue, pq_put. cbn [snd]. norm_queue.
  eapply target_queued.
  - cbn [tasks]. apply lookup_insert_eq.
  - exact work_raises.
  - reflexivity.
  - cbn [queue]. rewrite occ_snoc, (occ_absent snd) by exact Hfresh.
    cbn [snd]. now destruct (decide (task_id = task_id)).
  - cbn [retry_count]. lia.
  - cbn [invoked retry_count]. simpl. lia.
Qed.

Lemma pool_enqueued_target (self : ThreadPoolQueue.t) :
  task_id ∉ queue self ->
  target_state (fun t : string => t) task_id N (runs task_id (invoked self))
               (snd (ThreadPoolQueue.enqueue clock task_id work p N self)).
Proof.
  intros Hfresh. unfold ThreadPoolQueue.enqueue, fifo_put. cbn [snd]. norm_queue.
  eapply target_queued.
  - cbn [tasks]. apply lookup_insert_eq.
  - exact work_raises.
  - reflexivity.
  - cbn [queue]. rewrite occ_snoc, (occ_absent (fun t : string => t))
      by (now rewrite map_id).
    now destruct (decide (task_id = task_id)).
  - cbn [retry_count]. lia.
  - cbn [invoked retry_count]. simpl. lia.
Qed.

(** On the priority queue. *)
Lemma async_task_fails_after_N_runs (self : AsyncQueue.t) :
  running self = true ->
  task_id ∉ map snd (queue self) ->
  exists n0, forall n, (n0 <= n)%nat ->
    let after := AsyncQueue._worker clock n
                   (snd (AsyncQueue.enqueue clock task_id work p N self)) in
    status <$> tasks after !! task_id = Some FAILED /\
    retry_count <$> tasks after !! task_id = Some N /\
    runs task_id (invoked after) = (runs task_id (invoked self) + Z.to_nat N)%nat.
Proof.
  intros Hrun Hfresh.
  set (s := snd (AsyncQueue.enqueue clock task_id work p N self)).
  exists (load snd s). intros n Hn. cbv zeta.
  rewrite async_worker_eq by exact Hrun.
  destruct (target_fails pq_get snd async_retry clock pq_get_none pq_get_some
                         (fun _ => eq_refl) task_id N (runs task_id (invoked self))
                         n s (async_enqueued_target self Hfresh) Hn)
    as (task & -> & Hs & Hr & Hi).
  cbn [fmap option_fmap option_map]. now rewrite Hs, Hr, Hi.
Qed.

(** On the thread-pool queue. *)
Lemma pool_task_fails_after_N_runs (self : ThreadPoolQueue.t) :
  running self = true ->
  task_id ∉ queue self ->
  exists n0, forall n, (n0 <= n)%nat ->
    let after := ThreadPoolQueue._worker clock n
                   (snd (ThreadPoolQueue.enqueue clock task_id work p N self)) in
    status <$> tasks after !! task_id = Some FAILED /\
    retry_count <$> tasks after !! task_id = Some N /\
    runs task_id (invoked after) = (runs task_id (invoked self) + Z.to_nat N)%nat.
Proof.
  intros Hrun Hfresh.
  set (s := snd (ThreadPoolQueue.enqueue clock task_id work p N self)).
  exists (load (fun t : string => t) s). intros n Hn. cbv zeta.
  rewrite pool_worker_eq by exact Hrun.
  destruct (target_fails fifo_get (fun t : string => t) (fun t : string => t) clock
                         fifo_get_none fifo_get_some
                         (fun _ => eq_refl) task_id N (runs task_id (invoked self))
                         n s (pool_enqueued_target self Hfresh) Hn)
    as (task & -> & Hs & Hr & Hi).
  cbn [fmap option_fmap option_map]. now rewrite Hs, Hr, Hi.
Qed.

End AlwaysFailing.

(** C1: a task enqueued with [max_retries = N], [N >= 1], whose work
    raises at every call, on a queue whose worker runs: from some
    iteration of the worker loop on, the task is FAILED with
    [retry_count = N], and its work function has been invoked exactly [N]
    times.  This holds for [AsyncQueue] and for [ThreadPoolQueue], whatever
    else is queued. *)
Theorem always_failing_task_ends_failed (clock : nat -> datetime) (task_id : string)
        (work : nat -> Outcome string) (p N : Z) :
  1 <= N ->
  (forall n, raised (work n) = true) ->
  (forall self : AsyncQueue.t,
      running self = true -> task_id ∉ map snd (queue self) ->
      exists n0, forall n, (n0 <= n)%nat ->
        let after := AsyncQueue._worker clock n
                       (snd (AsyncQueue.enqueue clock task_id work p N self)) in
        status <$> tasks after !! task_id = Some FAILED /\
        retry_count <$> tasks after !! task_id = Some N /\
        runs task_id (invoked after) = (runs task_id (invoked self) + Z.to_nat N)%nat) /\
  (forall self : ThreadPoolQueue.t,
      running self = true -> task_id ∉ queue self ->
      exists n0, forall n, (n0 <= n)%nat ->
        let after := ThreadPoolQueue._worker clock n
                       (snd (ThreadPoolQueue.enqueue clock task_id work p N self)) in
        status <$> tasks after !! task_id = Some FAILED /\
        retry_count <$> tasks after !! task_id = Some N /\
        runs task_id (invoked after) = (runs task_id (invoked self) + Z.to_nat N)%nat).
Proof.
  intros HN Hwork. split; intros self Hrun Hfresh.
  - now apply async_task_fails_after_N_runs.
  - now apply pool_task_fails_after_N_runs.
Qed.


Lemma always_failing_task_ends_failed_witness :
  1 <= 3 /\
  (forall n, raised (QueueRuns.boom n) = true) /\
  running QueueRuns.idle_async = true /\
  ("job" ∉ map snd (queue QueueRuns.idle_async)) /\
  exists n0, forall n, (n0 <= n)%nat ->
    runs "job" (invoked (AsyncQueue._worker QueueRuns.clock0 n
                           (snd (AsyncQueue.enqueue QueueRuns.clock0 "job" QueueRuns.boom
                                                    0 3 QueueRuns.idle_async))))
    = (runs "job" (invoked QueueRuns.idle_async) + Z.to_nat 3)%nat.
Proof.
  assert (H13 : 1 <= 3) by lia.
  assert (Hfresh : "job" ∉ map snd (queue QueueRuns.idle_async))
    by (cbn; apply not_elem_of_nil).
  split; [exact H13 |]. split; [intros n; reflexivity |].
  split; [reflexivity |]. split; [exact Hfresh |].
  destruct (always_failing_task_ends_failed
              QueueRuns.clock0 "job" QueueRuns.boom 0 3 H13 (fun _ => eq_refl))
    as [Hasync _].
  destruct (Hasync QueueRuns.idle_async eq_refl Hfresh) as [n0 Hn0].
  exists n0. intros n Hn. apply (Hn0 n Hn).
Defined.

Lemma async_worker_idle clock n (self : AsyncQueue.t) :
  queue self = [] -> AsyncQueue._worker clock n self = self.
Proof.
  intros Hq. induction n as [| n IH]; [reflexivity |].
  cbn [AsyncQueue._worker]. destruct (running self); [| reflexivity].
  unfold AsyncQueue.worker_iteration. rewrite Hq. cbn [pq_get]. exact IH.
Qed.

Lemma pool_worker_idle clock n (self : ThreadPoolQueue.t) :
  queue self = [] -> ThreadPoolQueue._worker clock n self = self.
Proof.
  intros Hq. induction n as [| n IH]; [reflexivity |].
  cbn [ThreadPoolQueue._worker]. destruct (running self); [| reflexivity].
  unfold ThreadPoolQueue.worker_iteration. rewrite Hq. cbn [fifo_get]. exact IH.
Qed.

(** C1, as stated, fails: with [max_retries = 1] the always-failing task
    is FAILED with [retry_count = 1] after its first execution, and the
    work function is never invoked a second time, on either queue. *)
Lemma one_retry_is_one_execution :
  (status <$> tasks (AsyncQueue._worker QueueRuns.clock0 1 QueueRuns.async_once) !! "job"
   = Some FAILED /\
   retry_count <$> tasks (AsyncQueue._worker QueueRuns.clock0 1 QueueRuns.async_once) !! "job"
   = Some 1 /\
   forall n, (1 <= n)%nat ->
     invoked (AsyncQueue._worker QueueRuns.clock0 n QueueRuns.async_once) = ["job"]) /\
  (status <$> tasks (ThreadPoolQueue._worker QueueRuns.clock0 1 QueueRuns.pool_once) !! "job"
   = Some FAILED /\
   retry_count <$> tasks (ThreadPoolQueue._worker QueueRuns.clock0 1 QueueRuns.pool_once) !! "job"
   = Some 1 /\
   forall n, (1 <= n)%nat ->
     invoked (ThreadPoolQueue._worker QueueRuns.clock0 n QueueRuns.pool_once) = ["job"]).
Proof.
  split; (split; [vm_compute; reflexivity |]); (split; [vm_compute; reflexivity |]).
  - intros [| n] Hn; [lia |].
    change (AsyncQueue._worker QueueRuns.clock0 (S n) QueueRuns.async_once)
      with (AsyncQueue._worker QueueRuns.clock0 n
              (AsyncQueue.worker_iteration QueueRuns.clock0 QueueRuns.async_once)).
    rewrite async_worker_idle by (vm_compute; reflexivity).
    vm_compute. reflexivity.
  - intros [| n] Hn; [lia |].
    change (ThreadPoolQueue._worker QueueRuns.clock0 (S n) QueueRuns.pool_once)
      with (ThreadPoolQueue._worker QueueRuns.clock0 n
              (ThreadPoolQueue.worker_iteration QueueRuns.clock0 QueueRuns.pool_once)).
    rewrite pool_worker_idle by (vm_compute; reflexivity).
    vm_compute. reflexivity.
Qed.

(** ** Order of service *)

Lemma drain_subset n (q : list (Z * string)) : forall y, y ∈ drain n q -> y ∈ q.
Proof.
  revert q. induction n as [| n IH]; intros q y Hy; cbn [drain] in Hy.
  - now apply elem_of_nil in Hy.
  - destruct (pq_get q) as [[x q'] |] eqn:Hget; [| now apply elem_of_nil in Hy].
    apply pq_get_some in Hget. rewrite Hget.
    apply elem_of_cons in Hy as [-> | Hy]; [left | right; now apply IH].
Qed.

Lemma drain_perm n (q : list (Z * string)) : (length q <= n)%nat -> drain n q ≡ₚ q.
Proof.
  revert q. induction n as [| n IH]; intros q Hlen; cbn [drain].
  - destruct q; [reflexivity | simpl in Hlen; lia].
  - destruct (pq_get q) as [[x q'] |] eqn:Hget.
    + apply pq_get_some in Hget. rewrite Hget. constructor. apply IH.
      apply Permutation_length in Hget. simpl in Hget. lia.
    + apply pq_get_none in Hget. now subst.
Qed.

(** The priority queue hands its items out by ascending first
    component, that is by descending priority. *)
Lemma drain_sorted n (q : list (Z * string)) :
  StronglySorted (fun a b => - b.1 <= - a.1) (drain n q).
Proof.
  revert q. induction n as [| n IH]; intros q; cbn [drain]; [constructor |].
  destruct (pq_get q) as [[x q'] |] eqn:Hget; [| constructor].
  constructor; [apply IH |].
  apply Forall_forall. intros y Hy. apply drain_subset in Hy.
  destruct q as [| z l]; [discriminate |]. cbn [pq_get] in Hget.
  injection Hget as Hget.
  pose proof (extract_min_least z l y) as Hleast.
  pose proof (extract_min_perm z l) as Hperm.
  rewrite Hget in Hleast, Hperm. cbn [fst snd] in *.
  assert (y ∈ z :: l) as Hin by (rewrite Hperm; now right).
  specialize (Hleast Hin). lia.
Qed.

Section Scenario.

Variable clock : nat -> datetime.
Variables (a b : string) (fa fb : nat -> Outcome string) (ma mb : Z).

(** The task enqueued first with priority 2 is the first one a worker
    starts, however its iterations interleave with the second [enqueue]
    (priority 0): on [AsyncQueue] ... *)
Lemma async_high_first (self : AsyncQueue.t) (j k : nat) :
  running self = true -> queue self = [] ->
  exists l,
    invoked (AsyncQueue._worker clock k
               (snd (AsyncQueue.enqueue clock b fb 0 mb
                       (AsyncQueue._worker clock j
                          (snd (AsyncQueue.enqueue clock a fa 2 ma self))))))
    = invoked self ++ l /\
    ((j + k = 0)%nat -> l = []) /\
    ((1 <= j + k)%nat -> head l = Some a).
Proof.
  intros Hrun Hq.
  set (s1 := snd (AsyncQueue.enqueue clock a fa 2 ma self)).
  assert (Hq1 : queue s1 = [(-2, a)]) by (cbn; now rewrite Hq).
  assert (Hr1 : running s1 = true) by exact Hrun.
  assert (Hi1 : invoked s1 = invoked self) by reflexivity.
  assert (Ht1 : is_Some (tasks s1 !! a)) by (cbn; rewrite lookup_insert_eq; eauto).
  destruct j as [| j].
  - cbn [AsyncQueue._worker].
    set (s2 := snd (AsyncQueue.enqueue clock b fb 0 mb s1)).
    assert (Hq2 : queue s2 = [(-2, a); (0, b)])
      by (unfold s2, AsyncQueue.enqueue, pq_put; cbn [snd]; read_queue; now rewrite Hq1).
    assert (Ht2 : is_Some (tasks s2 !! a)).
    { unfold s2, AsyncQueue.enqueue. cbn [snd]. read_queue.
      destruct (decide (b = a)) as [-> | Hne].
      - rewrite lookup_insert_eq. eauto.
      - now rewrite lookup_insert_ne. }
    destruct k as [| k].
    + exists []. cbn [AsyncQueue._worker]. rewrite app_nil_r.
      split; [reflexivity | split; [reflexivity | lia]].
    + destruct Ht2 as [ta Hta].
      rewrite async_worker_eq by exact Hrun.
      destruct (iterations_first_run pq_get snd async_retry clock pq_get_none
                  pq_get_some k s2 (-2, a) [(0, b)] ta) as [l Hl].
      * rewrite Hq2. reflexivity.
      * exact Hta.
      * exists (a :: l). rewrite Hl.
        split; [reflexivity | split; [lia | reflexivity]].
  - destruct Ht1 as [ta Hta].
    rewrite (async_worker_eq clock (S j) s1) by exact Hr1.
    destruct (iterations_first_run pq_get snd async_retry clock pq_get_none
                pq_get_some j s1 (-2, a) [] ta) as [l1 Hl1];
      [rewrite Hq1; reflexivity | exact Hta |].
    set (s1' := iterations pq_get snd async_retry clock (S j) s1) in *.
    assert (Hr1' : running s1' = true)
      by (unfold s1'; now rewrite (iterations_running pq_get snd async_retry clock
                                     pq_get_none pq_get_some)).
    rewrite async_worker_eq by exact Hr1'.
    destruct (iterations_invoked pq_get snd async_retry clock pq_get_none pq_get_some
                k (snd (AsyncQueue.enqueue clock b fb 0 mb s1'))) as [l2 ->].
    exists (a :: l1 ++ l2).
    change (invoked (snd (AsyncQueue.enqueue clock b fb 0 mb s1'))) with (invoked s1').
    rewrite Hl1, Hi1, <- app_assoc.
    split; [reflexivity | split; [lia | reflexivity]].
Qed.

(** ... and on [ThreadPoolQueue], where it is first because it was put
    first. *)
Lemma pool_high_first (self : ThreadPoolQueue.t) (j k : nat) :
  running self = true -> queue self = [] ->
  exists l,
    invoked (ThreadPoolQueue._worker clock k
               (snd (ThreadPoolQueue.enqueue clock b fb 0 mb
                       (ThreadPoolQueue._worker clock j
                          (snd (ThreadPoolQueue.enqueue clock a fa 2 ma self))))))
    = invoked self ++ l /\
    ((j + k = 0)%nat -> l = []) /\
    ((1 <= j + k)%nat -> head l = Some a).
Proof.
  intros Hrun Hq.
  set (s1 := snd (ThreadPoolQueue.enqueue clock a fa 2 ma self)).
  assert (Hq1 : queue s1 = [a]) by (cbn; now rewrite Hq).
  assert (Hr1 : running s1 = true) by exact Hrun.
  assert (Hi1 : invoked s1 = invoked self) by reflexivity.
  assert (Ht1 : is_Some (tasks s1 !! a)) by (cbn; rewrite lookup_insert_eq; eauto).
  destruct j as [| j].
  - cbn [ThreadPoolQueue._worker].
    set (s2 := snd (ThreadPoolQueue.enqueue clock b fb 0 mb s1)).
    assert (Hq2 : queue s2 = [a; b])
      by (unfold s2, ThreadPoolQueue.enqueue, fifo_put; cbn [snd]; read_queue;
          now rewrite Hq1).
    assert (Ht2 : is_Some (tasks s2 !! a)).
    { unfold s2, ThreadPoolQueue.enqueue. cbn [snd]. read_queue.
      destruct (decide (b = a)) as [-> | Hne].
      - rewrite lookup_insert_eq. eauto.
      - now rewrite lookup_insert_ne. }
    destruct k as [| k].
    + exists []. cbn [ThreadPoolQueue._worker]. rewrite app_nil_r.
      split; [reflexivity | split; [reflexivity | lia]].
    + destruct Ht2 as [ta Hta].
      rewrite pool_worker_eq by exact Hrun.
      destruct (iterations_first_run fifo_get (fun t : string => t)
                  (fun t : string => t) clock fifo_get_none
                  fifo_get_some k s2 a [b] ta) as [l Hl].
      * rewrite Hq2. reflexivity.
      * exact Hta.
      * exists (a :: l). rewrite Hl.
        split; [reflexivity | split; [lia | reflexivity]].
  - destruct Ht1 as [ta Hta].
    rewrite (pool_worker_eq clock (S j) s1) by exact Hr1.
    destruct (iterations_first_run fifo_get (fun t : string => t)
                (fun t : string => t) clock fifo_get_none
                fifo_get_some j s1 a [] ta) as [l1 Hl1];
      [rewrite Hq1; reflexivity | exact Hta |].
    set (s1' := iterations fifo_get (fun t : string => t) (fun t : string => t)
                           clock (S j) s1) in *.
    assert (Hr1' : running s1' = true)
      by (unfold s1'; now rewrite (iterations_running fifo_get _ _ clock
                                     fifo_get_none fifo_get_some)).
    rewrite pool_worker_eq by exact Hr1'.
    destruct (iterations_invoked fifo_get (fun t : string => t) (fun t : string => t)
                clock fifo_get_none fifo_get_some
                k (snd (ThreadPoolQueue.enqueue clock b fb 0 mb s1'))) as [l2 ->].
    exists (a :: l1 ++ l2).
    change (invoked (snd (ThreadPoolQueue.enqueue clock b fb 0 mb s1')))
      with (invoked s1').
    rewrite Hl1, Hi1, <- app_assoc.
    split; [reflexivity | split; [lia | reflexivity]].
Qed.

End Scenario.

(** C4: [AsyncQueue.enqueue] puts the pair [(-priority, task_id)] on the
    ready queue, and the priority queue hands out an item of greatest
    priority first, so its items leave in descending priority order.
    [ThreadPoolQueue.enqueue] puts the task id alone on a FIFO queue, which
    hands out the oldest id whatever the priorities.  On an idle queue of
    either kind with one worker, a priority-2 task enqueued before a
    priority-0 task is the first to start, however the worker's iterations
    fall between and after the two calls. *)
Theorem enqueue_service_order (clock : nat -> datetime) :
  (forall (self : AsyncQueue.t) task_id work p m,
      queue (snd (AsyncQueue.enqueue clock task_id work p m self))
      = queue self ++ [(- p, task_id)]) /\
  (forall q x q',
      pq_get q = Some (x, q') ->
      q ≡ₚ x :: q' /\ forall y, y ∈ q -> - y.1 <= - x.1) /\
  (forall n q, StronglySorted (fun x y => - y.1 <= - x.1) (drain n q)) /\
  (forall q, drain (length q) q ≡ₚ q) /\
  (forall (self : ThreadPoolQueue.t) task_id work p m,
      queue (snd (ThreadPoolQueue.enqueue clock task_id work p m self))
      = queue self ++ [task_id]) /\
  (forall x q, fifo_get (x :: q) = Some (x, q)) /\
  (forall (self : AsyncQueue.t) a b fa fb ma mb j k,
      running self = true -> queue self = [] ->
      exists l,
        invoked (AsyncQueue._worker clock k
                   (snd (AsyncQueue.enqueue clock b fb 0 mb
                           (AsyncQueue._worker clock j
                              (snd (AsyncQueue.enqueue clock a fa 2 ma self))))))
        = invoked self ++ l /\
        ((j + k = 0)%nat -> l = []) /\
        ((1 <= j + k)%nat -> head l = Some a)) /\
  (forall (self : ThreadPoolQueue.t) a b fa fb ma mb j k,
      running self = true -> queue self = [] ->
      exists l,
        invoked (ThreadPoolQueue._worker clock k
                   (snd (ThreadPoolQueue.enqueue clock b fb 0 mb
                           (ThreadPoolQueue._worker clock j
                              (snd (ThreadPoolQueue.enqueue clock a fa 2 ma self))))))
        = invoked self ++ l /\
        ((j + k = 0)%nat -> l = []) /\
        ((1 <= j + k)%nat -> head l = Some a)).
Proof.
  split; [reflexivity |].
  split.
  { intros q x q' Hget. split; [now apply pq_get_some |].
    intros y Hy. destruct q as [| z l]; [discriminate |].
    cbn [pq_get] in Hget. injection Hget as Hget.
    pose proof (extract_min_least z l y Hy) as Hleast.
    rewrite Hget in Hleast. cbn [fst] in Hleast. lia. }
  split; [exact drain_sorted |].
  split; [intros q; now apply drain_perm |].
  split; [reflexivity |].
  split; [reflexivity |].
  split; intros; [now apply async_high_first | now apply pool_high_first].
Qed.

(** C4, as stated for either design, fails on [ThreadPoolQueue]: a
    priority-0 task enqueued before a priority-2 task is served first there,
    while [AsyncQueue] serves the priority-2 task first. *)
Lemma pool_serves_in_arrival_order :
  queue QueueRuns.pool_low_then_high = ["low"; "high"] /\
  priority <$> tasks QueueRuns.pool_low_then_high !! "low" = Some 0 /\
  priority <$> tasks QueueRuns.pool_low_then_high !! "high" = Some 2 /\
  invoked (ThreadPoolQueue._worker QueueRuns.clock0 1 QueueRuns.pool_low_then_high)
  = ["low"] /\
  invoked (ThreadPoolQueue._worker QueueRuns.clock0 2 QueueRuns.pool_low_then_high)
  = ["low"; "high"] /\
  invoked (AsyncQueue._worker QueueRuns.clock0 2 QueueRuns.async_low_then_high)
  = ["high"; "low"].
Proof. repeat split; vm_compute; reflexivity. Qed.

(** * Further properties *)

(** ** Circuit breaker: any history *)

Lemma breaker_run_bounds (evs : list BreakerTrace.Event) :
  forall (cb : CircuitBreaker) (n : Z),
    0 <= _circuit_breaker_failures cb <= n ->
    0 <= _circuit_breaker_failures (fold_left BreakerTrace.step evs cb)
      <= fold_left BreakerTrace.streak_step evs n /\
    _circuit_breaker_max_failures (fold_left BreakerTrace.step evs cb)
    = _circuit_breaker_max_failures cb /\
    _circuit_breaker_timeout (fold_left BreakerTrace.step evs cb)
    = _circuit_breaker_timeout cb.
Proof.
  induction evs as [| ev evs IH]; intros cb n Hb; [now cbn |].
  cbn [fold_left].
  destruct (IH (BreakerTrace.step cb ev) (BreakerTrace.streak_step n ev))
    as (H1 & H2 & H3).
  - destruct ev as [now | | now]; cbn; try lia.
    unfold is_circuit_open.
    destruct (_ <=? _); [| cbn; lia].
    destruct (_circuit_breaker_last_failure cb); [| cbn; lia].
    cbv zeta. destruct (_ <? _); cbn; lia.
  - rewrite H2, H3. split; [exact H1 |].
    destruct ev as [now | | now]; cbn; auto.
    unfold is_circuit_open.
    destruct (_ <=? _); [| now cbn].
    destruct (_circuit_breaker_last_failure cb); [| now cbn].
    cbv zeta. now destruct (_ <? _).
Qed.

(** X1: after any sequence of [record_failure], [record_success] and
    [is_circuit_open] calls on a fresh breaker, the thresholds are the
    configured ones and the count is at most the number of failures recorded
    since the last success; so the breaker reports open only when at least
    [max_failures] failures were recorded since the last success. *)
Theorem breaker_opens_only_after_max_failures
        (max_failures timeout : Z) (evs : list BreakerTrace.Event) (now : datetime) :
  let cb := BreakerTrace.run evs (Decorators.init max_failures timeout) in
  _circuit_breaker_max_failures cb = max_failures /\
  _circuit_breaker_timeout cb = timeout /\
  0 <= _circuit_breaker_failures cb <= BreakerTrace.streak evs /\
  (fst (is_circuit_open now cb) = true -> max_failures <= BreakerTrace.streak evs).
Proof.
  cbv zeta. unfold BreakerTrace.run, BreakerTrace.streak.
  destruct (breaker_run_bounds evs (Decorators.init max_failures timeout) 0)
    as (Hb & Hm & Ht); [cbn; lia |].
  cbn in Hm, Ht. repeat split; try tauto.
  intros Hopen. unfold is_circuit_open in Hopen. rewrite Hm in Hopen.
  destruct (max_failures <=? _) eqn:Hle; [| discriminate].
  apply Z.leb_le in Hle. lia.
Qed.

(** X2: [is_circuit_open] reads the elapsed time through [.seconds],
    so its answer, and what it writes, depend on the clock modulo one day:
    a check made any whole number of days later (or earlier) gives the same
    result. *)
Theorem is_circuit_open_day_periodic (now : datetime) (days : Z) (cb : CircuitBreaker) :
  is_circuit_open (now + days * (seconds_per_day * us_per_second)) cb
  = is_circuit_open now cb.
Proof.
  unfold is_circuit_open.
  destruct (_ <=? _); [| reflexivity].
  destruct (_circuit_breaker_last_failure cb) as [last |]; [| reflexivity].
  cbv zeta.
  replace (td_seconds (now + days * (seconds_per_day * us_per_second) - last))
    with (td_seconds (now - last)); [reflexivity |].
  unfold td_seconds, seconds_per_day, us_per_second.
  replace (now + days * (86400 * 1000000) - last)
    with (now - last + (days * 86400) * 1000000) by lia.
  rewrite Z.div_add by lia.
  now rewrite Z.mod_add by lia.
Qed.

(** ** The notifier: every outcome *)

Section NotifyOutcomes.

Variable env : Env.
Implicit Types (self : Notifier) (user : User) (e : EmergencyType).

Lemma send_frame (c : Channel) (message recipient : string) self :
  breaker (snd (send env c message recipient self)) = breaker self /\
  commits (snd (send env c message recipient self)) = commits self /\
  notifications (snd (send env c message recipient self)) = notifications self.
Proof.
  destruct (send_effect env c message recipient self) as (k & _ & _ & _ & Hb & Hc & Hn).
  auto.
Qed.

Lemma send_all_channels_frame (message : string) user self :
  breaker (snd (send_all_channels env message user self)) = breaker self /\
  commits (snd (send_all_channels env message user self)) = commits self /\
  notifications (snd (send_all_channels env message user self)) = notifications self.
Proof.
  unfold send_all_channels.
  change (send_email env) with (send env Email).
  change (send_push env) with (send env Push).
  change (send_sms env) with (send env SMS).
  destruct (send_frame Email message (u_email user) self) as (Hb1 & Hc1 & Hn1).
  destruct (send env Email message (u_email user) self) as [o1 s1].
  destruct o1; cbn [append_result snd] in *.
  all: destruct (send_frame Push message (u_id user) s1) as (Hb2 & Hc2 & Hn2).
  all: destruct (send env Push message (u_id user) s1) as [o2 s2].
  all: destruct o2; cbn [append_result snd] in *.
  all: destruct (truthy_str (u_phone user)); cbn [snd];
    [| repeat split; congruence].
  all: destruct (send_frame SMS message (default "" (u_phone user)) s2)
    as (Hb3 & Hc3 & Hn3).
  all: destruct (send env SMS message (default "" (u_phone user)) s2) as [o3 s3].
  all: destruct o3; cbn [append_result snd] in *; repeat split; congruence.
Qed.

(** What [archive_notification] does, by cases. *)
Lemma archive_outcome (d : NotificationData) self :
  match fst (archive_notification env d self) with
  | Return d' =>
      exists chans,
        success_channels (d_results d) = Return chans /\
        commit_error env (commits self) = None /\
        d' = set_notification_id (Z.of_nat (length (notifications self)) + 1) d /\
        notifications (snd (archive_notification env d self))
        = notifications self
          ++ [mkRow (Z.of_nat (length (notifications self)) + 1) (d_user_id d)
                    (d_title d) (d_body d) (d_emergency_type d) (d_priority d)
                    (join "," chans)] /\
        breaker (snd (archive_notification env d self)) = breaker self
  | Raise _ =>
      notifications (snd (archive_notification env d self)) = notifications self /\
      breaker (snd (archive_notification env d self)) = breaker self
  end.
Proof.
  unfold archive_notification.
  destruct (success_channels (d_results d)) as [chans | err]; [| now cbn].
  destruct (commit_error env (commits self)) as [err |]; [now cbn |].
  cbn. exists chans. auto.
Qed.

(** The [try] block of [notify], by cases on its outcome. *)
Lemma notify_try_outcome user (title body : string) e self :
  match fst (notify_try env user title body e self) with
  | Return d =>
      breaker (snd (notify_try env user title body e self))
      = record_success (breaker self) /\
      exists results chans,
        success_channels results = Return chans /\
        d = mkData (u_id user) title body (value e)
                   (priority_name (get_priority (Member e))) results
                   (Some (Z.of_nat (length (notifications self)) + 1)) /\
        notifications (snd (notify_try env user title body e self))
        = notifications self
          ++ [mkRow (Z.of_nat (length (notifications self)) + 1) (u_id user)
                    title body (value e) (priority_name (get_priority (Member e)))
                    (join "," chans)]
  | Raise _ =>
      breaker (snd (notify_try env user title body e self)) = breaker self /\
      notifications (snd (notify_try env user title body e self)) = notifications self
  end.
Proof.
  unfold notify_try.
  generalize (format_message title body (Some e)) as message. intros message.
  set (p := get_priority (Member e)). clearbody p.
  assert (Harch : forall results s1,
             breaker s1 = breaker self -> notifications s1 = notifications self ->
             let d := mkData (u_id user) title body (value e) (priority_name p)
                             results None in
             match
               fst (match archive_notification env d s1 with
                    | (Return d', s2) =>
                        (Return d', set_breaker (record_success (breaker s2)) s2)
                    | (Raise err, s2) => (Raise err, s2)
                    end)
             with
             | Return d' =>
                 breaker (snd (match archive_notification env d s1 with
                               | (Return d', s2) =>
                                   (Return d', set_breaker (record_success (breaker s2)) s2)
                               | (Raise err, s2) => (Raise err, s2)
                               end))
                 = record_success (breaker self) /\
                 exists results' chans,
                   success_channels results' = Return chans /\
                   d' = mkData (u_id user) title body (value e) (priority_name p) results'
                               (Some (Z.of_nat (length (notifications self)) + 1)) /\
                   notifications
                     (snd (match archive_notification env d s1 with
                           | (Return d', s2) =>
                               (Return d', set_breaker (record_success (breaker s2)) s2)
                           | (Raise err, s2) => (Raise err, s2)
                           end))
                   = notifications self
                     ++ [mkRow (Z.of_nat (length (notifications self)) + 1) (u_id user)
                               title body (value e) (priority_name p) (join "," chans)]
             | Raise _ =>
                 breaker (snd (match archive_notification env d s1 with
                               | (Return d', s2) =>
                                   (Return d', set_breaker (record_success (breaker s2)) s2)
                               | (Raise err, s2) => (Raise err, s2)
                               end)) = breaker self /\
                 notifications
                   (snd (match archive_notification env d s1 with
                         | (Return d', s2) =>
                             (Return d', set_breaker (record_success (breaker s2)) s2)
                         | (Raise err, s2) => (Raise err, s2)
                         end)) = notifications self
             end).
  { intros results s1 Hb Hn d.
    pose proof (archive_outcome d s1) as Ha.
    destruct (archive_notification env d s1) as [[d' | err] s2]; cbn [fst snd] in *.
    - destruct Ha as (chans & Hs & _ & -> & Hrows & Hb2).
      split; [cbn; congruence |].
      exists results, chans. rewrite <- Hn. cbn in Hs. auto.
    - destruct Ha as [Hrows Hb2]. split; congruence. }
  destruct (is_critical p).
  - destruct (send_all_channels_frame message user self) as (Hb & _ & Hn).
    destruct (send_all_channels env message user self) as [results s1].
    cbn [snd] in Hb, Hn. exact (Harch results s1 Hb Hn).
  - change (send_email env) with (send env Email).
    change (send_push env) with (send env Push).
    destruct (prefers_email user).
    + destruct (send_frame Email message (u_email user) self) as (Hb & _ & Hn).
      destruct (send env Email message (u_email user) self) as [[v | err] s1];
        cbn [snd] in Hb, Hn; [exact (Harch [v] s1 Hb Hn) | cbn; auto].
    + destruct (send_frame Push message (u_id user) self) as (Hb & _ & Hn).
      destruct (send env Push message (u_id user) self) as [[v | err] s1];
        cbn [snd] in Hb, Hn; [exact (Harch [v] s1 Hb Hn) | cbn; auto].
Qed.

End NotifyOutcomes.

(** X3: every call of [notify] settles with the breaker in exactly one
    way.  A call that returns went through a closed breaker and ended in
    [record_success]; a call that raises was either rejected by the open
    breaker, leaving the notifier untouched, or went through and ended in
    [record_failure]. *)
Theorem notify_settles_with_breaker (env : Env) (t_check t_fail : datetime)
        (user : User) (title body : string) (e : EmergencyType) (self : Notifier) :
  let chk := is_circuit_open t_check (breaker self) in
  let out := notify env t_check t_fail user title body e self in
  match fst out with
  | Return _ =>
      fst chk = false /\ breaker (snd out) = record_success (snd chk)
  | Raise err =>
      (fst chk = true /\ err = circuit_open_error /\ snd out = self) \/
      (fst chk = false /\ breaker (snd out) = record_failure t_fail (snd chk))
  end.
Proof.
  cbv zeta. unfold notify.
  pose proof (is_circuit_open_true_unchanged t_check (breaker self)) as Hsame.
  destruct (is_circuit_open t_check (breaker self)) as [[|] cb]; cbn [fst snd] in *.
  - left. rewrite Hsame by reflexivity. now rewrite set_breaker_same.
  - pose proof (notify_try_outcome env user title body e (set_breaker cb self)) as Hout.
    destruct (notify_try env user title body e (set_breaker cb self)) as [[d | err] s1];
      cbn [fst snd] in *.
    + destruct Hout as [Hb _]. now split.
    + destruct Hout as [Hb _]. right. split; [reflexivity |]. cbn. now rewrite Hb.
Qed.






(** X7: [retry_on_failure(retries)] around a sender, for any budget.
    With [retries = 0] the body never runs and [None] is returned; if the
    first [k < retries] executions raise and the next one succeeds, its
    result is returned after [k + 1] executions; if all [retries >= 1]
    executions raise, the exception of the last one escapes after exactly
    [retries] executions. *)
Theorem retry_on_failure_budget (env : Env) (c : Channel) (message recipient : string)
        (retries : nat) (self : Notifier) :
  let wrapped := retry_on_failure retries (send_body env c message recipient) in
  (retries = 0%nat -> wrapped self = (Return None, self)) /\
  (forall k, (k < retries)%nat ->
     (forall i, (i < k)%nat -> random_fails env (draws self + i) = true) ->
     random_fails env (draws self + k) = false ->
     fst (wrapped self)
     = Return (Some (mkResult "success" (channel_name c) recipient message)) /\
     attempts (snd (wrapped self)) = attempts self ++ replicate (S k) c /\
     draws (snd (wrapped self)) = (draws self + S k)%nat) /\
  ((1 <= retries)%nat ->
   (forall i, (i < retries)%nat -> random_fails env (draws self + i) = true) ->
   fst (wrapped self) = Raise (failure_message c) /\
   attempts (snd (wrapped self)) = attempts self ++ replicate retries c /\
   draws (snd (wrapped self)) = (draws self + retries)%nat).
Proof.
  cbv zeta. split; [intros ->; reflexivity |]. split.
  - intros k Hk Hfail Hok.
    rewrite (retry_on_failure_succeeds env c message recipient retries k self Hk Hfail Hok).
    destruct (draw_n_frame (S k) c self) as (_ & _ & _ & _ & _ & Hd & Ha).
    cbn [fst snd _track_performance attempts draws]. now rewrite Hd, Ha.
  - intros Hr Hfail.
    rewrite (retry_on_failure_exhausted env c message recipient retries self Hr Hfail).
    destruct (draw_n_frame retries c self) as (_ & _ & _ & _ & _ & Hd & Ha).
    cbn [fst snd]. now rewrite Hd, Ha.
Qed.

(** ** The worker loop: what one run writes *)

Section WorkerRuns.

Context {Item : Type}.
Variable get : list Item -> option (Item * list Item).
Variable item_id : Item -> string.
Variable retry_item : string -> Item.
Variable clock : nat -> datetime.

Hypothesis get_none : forall q, get q = None -> q = [].
Hypothesis get_some : forall q x q', get q = Some (x, q') -> q ≡ₚ x :: q'.
Hypothesis retry_item_id : forall task_id, item_id (retry_item task_id) = task_id.

Implicit Types (self : QueueState Item) (task : QueuedTask).

Local Abbreviation run_task := (Worker.run_task retry_item clock).
Local Abbreviation iteration := (Worker.iteration get item_id retry_item clock).
Local Abbreviation iterations := (Worker.iterations get item_id retry_item clock).
Local Abbreviation well_formed := (Lifecycle.well_formed item_id).

(** The state a run of a registered task leaves, field by field. *)
Lemma run_task_result task_id self task :
  tasks self !! task_id = Some task ->
  run_task task_id self
  = let started := start_task (clock (ticks self)) task in
    match func task (length (invoked self)) with
    | Return v =>
        mkQueue (queue self)
                (<[task_id := complete_task v (clock (S (ticks self))) started]>
                   (tasks self))
                (running self) (invoked self ++ [task_id]) (S (S (ticks self)))
    | Raise e =>
        if retry_count task + 1 <? max_retries task then
          mkQueue (queue self ++ [retry_item task_id])
                  (<[task_id := retry_task (note_error e started)]> (tasks self))
                  (running self) (invoked self ++ [task_id]) (S (ticks self))
        else
          mkQueue (queue self)
                  (<[task_id := fail_task (clock (S (ticks self)))
                                          (note_error e started)]> (tasks self))
                  (running self) (invoked self ++ [task_id]) (S (S (ticks self)))
    end.
Proof.
  intros Hreg. unfold Worker.run_task. rewrite Hreg. cbv zeta.
  cbn [tick set_task log_invocation invoked queue tasks running ticks start_task func].
  destruct (func task (length (invoked self))) as [v | e].
  - apply queue_state_eq; read_queue; rewrite ?insert_insert_eq; reflexivity.
  - cbn [note_error retry_count max_retries start_task].
    destruct (retry_count task + 1 <? max_retries task);
      apply queue_state_eq; read_queue; rewrite ?insert_insert_eq; reflexivity.
Qed.

(** A run that leaves the task at rest keeps the queue object well
    formed, whether the id goes back on the queue or not. *)
Lemma well_formed_run self x q' task task' q'' ticks' :
  well_formed self ->
  queue self ≡ₚ x :: q' ->
  tasks self !! item_id x = Some task ->
  id task' = item_id x -> task_at_rest task' -> provenance task' ->
  executions task' = S (executions task) ->
  (q'' = q' /\ waiting task' = false) \/
  (q'' = q' ++ [retry_item (item_id x)] /\ waiting task' = true) ->
  well_formed (mkQueue q'' (<[item_id x := task']> (tasks self)) (running self)
                       (invoked self ++ [item_id x]) ticks').
Proof.
  intros (Hnd & Hq & Ht & Hn) Hperm Hreg Hid Hrest Hprov Hexec Hq''.
  set (i0 := item_id x) in *.
  assert (Hmem : forall i, i ∈ map item_id (queue self) <-> i = i0 \/ i ∈ map item_id q').
  { intros i. rewrite Hperm. cbn [map]. apply elem_of_cons. }
  assert (Hnd' : (i0 ∉ map item_id q') /\ NoDup (map item_id q')).
  { rewrite Hperm in Hnd. cbn [map] in Hnd. now apply NoDup_cons in Hnd. }
  destruct Hnd' as [Hfresh Hnd'].
  assert (Hmem'' : forall i, i <> i0 ->
                             (i ∈ map item_id q'' <-> i ∈ map item_id (queue self))).
  { intros i Hne. rewrite Hmem.
    destruct Hq'' as [[-> _] | [-> _]].
    - tauto.
    - rewrite map_app, elem_of_app. cbn [map]. rewrite retry_item_id.
      rewrite list_elem_of_singleton. tauto. }
  unfold Lifecycle.well_formed. cbn [queue tasks invoked].
  split; [| split; [| split]].
  - destruct Hq'' as [[-> _] | [-> _]]; [exact Hnd' |].
    rewrite map_app. apply NoDup_app. split; [exact Hnd' |]. split.
    + intros i Hi. cbn [map]. rewrite retry_item_id, list_elem_of_singleton.
      intros ->. contradiction.
    + cbn [map]. apply NoDup_singleton.
  - intros i. destruct (decide (i = i0)) as [-> | Hne].
    + rewrite lookup_insert_eq.
      destruct Hq'' as [[-> Hw] | [-> Hw]].
      * split; [contradiction |]. intros (t & [= <-] & Hw'). congruence.
      * split; [eauto |]. intros _. rewrite map_app, elem_of_app. right.
        cbn [map]. rewrite retry_item_id. apply list_elem_of_singleton. reflexivity.
    + rewrite lookup_insert_ne by congruence. rewrite (Hmem'' i Hne). apply Hq.
  - intros i t. destruct (decide (i = i0)) as [-> | Hne].
    + rewrite lookup_insert_eq. intros [= <-].
      repeat split; try tauto; try apply Hprov.
      rewrite runs_snoc. destruct (decide (i0 = i0)); [| contradiction].
      destruct (Ht i0 task Hreg) as (_ & _ & _ & ->). lia.
    + rewrite lookup_insert_ne by congruence. intros Hi.
      destruct (Ht i t Hi) as (H1 & H2 & H3 & H4).
      repeat split; try tauto; try apply H3.
      rewrite runs_snoc. destruct (decide (i0 = i)); [congruence | lia].
  - intros i. destruct (decide (i = i0)) as [-> | Hne].
    + rewrite lookup_insert_eq. discriminate.
    + rewrite lookup_insert_ne by congruence. intros Hi.
      rewrite runs_snoc. destruct (decide (i0 = i)); [congruence |].
      rewrite (Hn i Hi). reflexivity.
Qed.

(** One loop iteration keeps the queue object well formed. *)
Lemma well_formed_iteration self : well_formed self -> well_formed (iteration self).
Proof.
  intros Hwf. unfold Worker.iteration.
  destruct (get (queue self)) as [[x q'] |] eqn:Hget; [| exact Hwf].
  apply get_some in Hget.
  destruct Hwf as (Hnd & Hq & Ht & Hn).
  destruct (proj1 (Hq (item_id x))) as (task & Hreg & Hwait).
  { rewrite Hget. cbn [map]. apply elem_of_cons. now left. }
  destruct (Ht _ task Hreg) as (Hid & Hrest & [Hres Herr] & Hruns).
  rewrite (run_task_result (item_id x) (set_queue q' self) task Hreg).
  cbv zeta. cbn [set_queue queue tasks running invoked ticks].
  unfold waiting in Hwait. unfold task_at_rest in Hrest.
  destruct (func task (length (invoked self))) as [v | e] eqn:Hcall;
    [| destruct (retry_count task + 1 <? max_retries task) eqn:Hlt;
       [apply Z.ltb_lt in Hlt | apply Z.ltb_ge in Hlt]].
  all: eapply (well_formed_run self x q' task); eauto;
    try exact (conj Hnd (conj Hq (conj Ht Hn))).
  all: unfold task_at_rest, provenance, executions, waiting;
    cbn [complete_task fail_task retry_task note_error start_task
         status retry_count max_retries started_at completed_at result error func id].
  all: destruct (status task); try discriminate;
    destruct Hrest as (H1 & H2 & H3 & H4 & H5); try rewrite H1 in *.
  all: try (split; [| intros e' He'; try (injection He' as <-); eauto];
            intros v' Hv'; try (injection Hv' as <-); eauto).
  all: try rewrite H5 in *.
  all: repeat split; eauto; try lia; try congruence.
  all: try (intros [? ?]; discriminate).
  all: try (destruct H5; lia).
Qed.

Lemma well_formed_iterations n self : well_formed self -> well_formed (iterations n self).
Proof.
  revert self. induction n as [| n IH]; intros self Hwf; [exact Hwf |].
  cbn [Worker.iterations]. apply IH, well_formed_iteration, Hwf.
Qed.

End WorkerRuns.

(** ** The two queues keep their tasks well formed *)

Lemma async_worker_stopped clock n (self : AsyncQueue.t) :
  running self = false -> AsyncQueue._worker clock n self = self.
Proof. intros Hrun. destruct n; cbn [AsyncQueue._worker]; now rewrite ?Hrun. Qed.

Lemma pool_worker_stopped clock n (self : ThreadPoolQueue.t) :
  running self = false -> ThreadPoolQueue._worker clock n self = self.
Proof. intros Hrun. destruct n; cbn [ThreadPoolQueue._worker]; now rewrite ?Hrun. Qed.

Lemma well_formed_flag {Item : Type} (item_id : Item -> string) (b : bool)
      (self : QueueState Item) :
  well_formed item_id self -> well_formed item_id (set_running b self).
Proof. intros Hwf. exact Hwf. Qed.

(** Registering a fresh task and putting its id on the queue. *)
Lemma well_formed_put {Item : Type} (item_id : Item -> string) (x : Item)
      (task : QueuedTask) (self : QueueState Item) (ticks' : nat) :
  well_formed item_id self ->
  tasks self !! item_id x = None ->
  id task = item_id x -> status task = PENDING -> retry_count task = 0 ->
  started_at task = None -> completed_at task = None ->
  result task = None -> error task = None ->
  well_formed item_id
    (mkQueue (queue self ++ [x]) (<[item_id x := task]> (tasks self)) (running self)
             (invoked self) ticks').
Proof.
  intros (Hnd & Hq & Ht & Hn) Hfresh Hid Hst Hrc Hsa Hca Hres Herr.
  assert (Hnot : item_id x ∉ map item_id (queue self)).
  { intros Hin. apply Hq in Hin as (t & Hreg & _). congruence. }
  unfold Lifecycle.well_formed. cbn [queue tasks invoked].
  split; [| split; [| split]].
  - rewrite map_app. apply NoDup_app. split; [exact Hnd |]. split.
    + intros i Hi. cbn [map]. rewrite list_elem_of_singleton. intros ->. contradiction.
    + apply NoDup_singleton.
  - intros i. rewrite map_app, elem_of_app. cbn [map]. rewrite list_elem_of_singleton.
    destruct (decide (i = item_id x)) as [-> | Hne].
    + rewrite lookup_insert_eq. split; [| tauto].
      intros _. exists task. split; [reflexivity |]. unfold waiting. now rewrite Hst.
    + rewrite lookup_insert_ne by congruence. rewrite <- Hq. tauto.
  - intros i t. destruct (decide (i = item_id x)) as [-> | Hne].
    + rewrite lookup_insert_eq. intros [= <-].
      split; [exact Hid |]. split; [| split].
      * unfold task_at_rest. rewrite Hst. auto.
      * unfold provenance. rewrite Hres, Herr. split; intros ? [=].
      * unfold executions. rewrite Hst, Hrc. apply (Hn _ Hfresh).
    + rewrite lookup_insert_ne by congruence. apply Ht.
  - intros i. destruct (decide (i = item_id x)) as [-> | Hne].
    + rewrite lookup_insert_eq. discriminate.
    + rewrite lookup_insert_ne by congruence. apply Hn.
Qed.

Lemma async_reachable_well_formed clock (self : AsyncQueue.t) :
  async_reachable clock self -> well_formed snd self.
Proof.
  induction 1 as [| self _ IH | self _ IH | self task_id work p m _ IH Hfresh
                  | self n _ IH].
  - unfold Lifecycle.well_formed, AsyncQueue.init. cbn.
    split; [constructor |]. split; [| split].
    + intros i. split; [intros Hi; now apply elem_of_nil in Hi |].
      intros (t & Ht & _). now rewrite lookup_empty in Ht.
    + intros i t Ht. now rewrite lookup_empty in Ht.
    + reflexivity.
  - unfold AsyncQueue.start. destruct (running self); [exact IH |].
    now apply well_formed_flag.
  - unfold AsyncQueue.stop. destruct (negb (running self)); [exact IH |].
    now apply well_formed_flag.
  - unfold AsyncQueue.enqueue, pq_put. cbn [snd]. norm_queue.
    now apply (well_formed_put snd (- p, task_id)).
  - destruct (running self) eqn:Hrun.
    + rewrite async_worker_eq by exact Hrun.
      apply (well_formed_iterations pq_get snd async_retry clock pq_get_some); auto.
    + now rewrite async_worker_stopped.
Qed.

Lemma pool_reachable_well_formed clock (self : ThreadPoolQueue.t) :
  pool_reachable clock self -> well_formed (fun t : string => t) self.
Proof.
  induction 1 as [| self _ IH | self _ IH | self task_id work p m _ IH Hfresh
                  | self n _ IH].
  - unfold Lifecycle.well_formed, ThreadPoolQueue.init. cbn.
    split; [constructor |]. split; [| split].
    + intros i. split; [intros Hi; now apply elem_of_nil in Hi |].
      intros (t & Ht & _). now rewrite lookup_empty in Ht.
    + intros i t Ht. now rewrite lookup_empty in Ht.
    + reflexivity.
  - unfold ThreadPoolQueue.start. destruct (running self); [exact IH |].
    now apply well_formed_flag.
  - unfold ThreadPoolQueue.stop. destruct (negb (running self)); [exact IH |].
    now apply well_formed_flag.
  - unfold ThreadPoolQueue.enqueue, fifo_put. cbn [snd]. norm_queue.
    now apply (well_formed_put (fun t : string => t) task_id).
  - destruct (running self) eqn:Hrun.
    + rewrite pool_worker_eq by exact Hrun.
      apply (well_formed_iterations fifo_get (fun t : string => t)
               (fun t : string => t) clock fifo_get_some); auto.
    + now rewrite pool_worker_stopped.
Qed.

(** ** What the worker loop never touches *)

Section WorkerFrame.

Context {Item : Type}.
Variable get : list Item -> option (Item * list Item).
Variable item_id : Item -> string.
Variable retry_item : string -> Item.
Variable clock : nat -> datetime.

Implicit Types (self : QueueState Item) (task : QueuedTask).

Local Abbreviation run_task := (Worker.run_task retry_item clock).
Local Abbreviation iteration := (Worker.iteration get item_id retry_item clock).
Local Abbreviation iterations := (Worker.iterations get item_id retry_item clock).

Lemma run_task_frame task_id self i :
  match tasks self !! i with
  | Some task =>
      exists task', tasks (run_task task_id self) !! i = Some task' /\
                    same_identity task task'
  | None => tasks (run_task task_id self) !! i = None
  end.
Proof.
  destruct (tasks self !! task_id) as [t0 |] eqn:Hreg.
  - rewrite (run_task_result retry_item clock task_id self t0 Hreg). cbv zeta.
    destruct (decide (task_id = i)) as [<- | Hne].
    + rewrite Hreg.
      destruct (func t0 _); [| destruct (_ <? _)]; cbn [tasks];
        rewrite lookup_insert_eq; eexists; (split; [reflexivity |]);
        unfold same_identity; cbn; auto.
    + destruct (tasks self !! i) as [task |] eqn:Hi;
        destruct (func t0 _); try destruct (_ <? _); cbn [tasks];
        rewrite lookup_insert_ne by exact Hne; rewrite Hi;
        try reflexivity; eexists; (split; [reflexivity |]);
        unfold same_identity; auto.
  - unfold Worker.run_task. rewrite Hreg.
    destruct (tasks self !! i) as [task |] eqn:Hi; [| reflexivity].
    exists task. unfold same_identity. repeat split.
Qed.

Lemma iteration_frame self i :
  match tasks self !! i with
  | Some task =>
      exists task', tasks (iteration self) !! i = Some task' /\ same_identity task task'
  | None => tasks (iteration self) !! i = None
  end.
Proof.
  unfold Worker.iteration. destruct (get (queue self)) as [[x q'] |].
  - exact (run_task_frame (item_id x) (set_queue q' self) i).
  - destruct (tasks self !! i) as [task |]; [| reflexivity].
    exists task. unfold same_identity. repeat split.
Qed.

Lemma iterations_frame n self i :
  match tasks self !! i with
  | Some task =>
      exists task', tasks (iterations n self) !! i = Some task' /\
                    same_identity task task'
  | None => tasks (iterations n self) !! i = None
  end.
Proof.
  revert self. induction n as [| n IH]; intros self.
  - cbn [Worker.iterations]. destruct (tasks self !! i) as [task |]; [| reflexivity].
    exists task. unfold same_identity. repeat split.
  - cbn [Worker.iterations]. specialize (IH (iteration self)).
    pose proof (iteration_frame self i) as Hstep.
    destruct (tasks self !! i) as [task |].
    + destruct Hstep as (t1 & Ht1 & H1). rewrite Ht1 in IH.
      destruct IH as (t2 & Ht2 & H2). exists t2. split; [exact Ht2 |].
      unfold same_identity in *. intuition congruence.
    + now rewrite Hstep in IH.
Qed.

End WorkerFrame.

(** ** Tasks at the end of the queue's work *)

Section WorkerEnd.

Context {Item : Type}.
Variable get : list Item -> option (Item * list Item).
Variable item_id : Item -> string.
Variable retry_item : string -> Item.
Variable clock : nat -> datetime.

Implicit Types (self : QueueState Item) (task : QueuedTask).

(** In a well-formed queue object whose ready queue is empty every task
    is COMPLETED or FAILED. *)
Lemma drained_tasks_are_terminal self :
  well_formed item_id self -> queue self = [] ->
  forall i task, tasks self !! i = Some task -> terminal task = true.
Proof.
  intros (_ & Hq & Ht & _) Hempty i task Hi.
  destruct (Ht i task Hi) as (_ & Hrest & _).
  assert (waiting task = false) as Hw.
  { destruct (waiting task) eqn:Hw; [| reflexivity].
    assert (i ∈ map item_id (queue self)) as Hin by (apply Hq; eauto).
    rewrite Hempty in Hin. now apply elem_of_nil in Hin. }
  unfold terminal, waiting, task_at_rest in *.
  destruct (status task); try reflexivity; try discriminate. contradiction.
Qed.

(** There, a task whose work never raises is COMPLETED on its first
    execution. *)
Lemma drained_returning_task self i task :
  well_formed item_id self -> queue self = [] ->
  tasks self !! i = Some task ->
  (forall k, raised (func task k) = false) ->
  status task = COMPLETED /\ retry_count task = 0 /\ error task = None /\
  (exists k v, func task k = Return v /\ result task = Some v) /\
  runs i (invoked self) = 1%nat.
Proof.
  intros Hwf Hempty Hi Hnever.
  pose proof (drained_tasks_are_terminal self Hwf Hempty i task Hi) as Hterm.
  destruct Hwf as (_ & _ & Ht & _).
  destruct (Ht i task Hi) as (_ & Hrest & [Hres Herr] & Hruns).
  assert (error task = None) as Hnone.
  { destruct (error task) as [e |] eqn:He; [| reflexivity].
    destruct (Herr e eq_refl) as [k Hk]. specialize (Hnever k).
    rewrite Hk in Hnever. discriminate. }
  unfold terminal, task_at_rest, executions in *.
  destruct (status task); try discriminate.
  - destruct Hrest as (H0 & _ & _ & _ & [v Hv] & Hiff).
    assert (retry_count task = 0) as Hrc.
    { destruct (Z.eq_dec (retry_count task) 0) as [? | Hne]; [assumption |].
      assert (is_Some (error task)) as [e He] by (apply Hiff; lia). congruence. }
    repeat split; auto.
    + destruct (Hres v Hv) as [k Hk]. eauto.
    + rewrite Hruns, Hrc. reflexivity.
  - destruct Hrest as (_ & _ & _ & _ & [e He]). congruence.
Qed.

End WorkerEnd.


Lemma async_tasks_end clock (self : AsyncQueue.t) :
  async_reachable clock self -> running self = true ->
  forall n, (load snd self <= n)%nat ->
    queue (AsyncQueue._worker clock n self) = [] /\
    well_formed snd (AsyncQueue._worker clock n self).
Proof.
  intros Hreach Hrun n Hn.
  split; [| apply async_reachable_well_formed with clock; now constructor].
  rewrite async_worker_eq by exact Hrun.
  now apply (iterations_drain pq_get snd async_retry clock pq_get_none pq_get_some).
Qed.

Lemma pool_tasks_end clock (self : ThreadPoolQueue.t) :
  pool_reachable clock self -> running self = true ->
  forall n, (load (fun t : string => t) self <= n)%nat ->
    queue (ThreadPoolQueue._worker clock n self) = [] /\
    well_formed (fun t : string => t) (ThreadPoolQueue._worker clock n self).
Proof.
  intros Hreach Hrun n Hn.
  split; [| apply pool_reachable_well_formed with clock; now constructor].
  rewrite pool_worker_eq by exact Hrun.
  now apply (iterations_drain fifo_get _ _ clock fifo_get_none fifo_get_some).
Qed.


Section ReturningTask.

Variable clock : nat -> datetime.
Variables (task_id : string) (work : nat -> Outcome string) (p m : Z).
Hypothesis work_returns : forall n, raised (work n) = false.

Lemma async_returning_task (self : AsyncQueue.t) :
  async_reachable clock self -> running self = true ->
  tasks self !! task_id = None ->
  exists n0, forall n, (n0 <= n)%nat ->
    exists task,
      tasks (AsyncQueue._worker clock n
               (snd (AsyncQueue.enqueue clock task_id work p m self))) !! task_id
      = Some task /\
      status task = COMPLETED /\ retry_count task = 0 /\ error task = None /\
      (exists k v, work k = Return v /\ result task = Some v) /\
      runs task_id (invoked (AsyncQueue._worker clock n
                               (snd (AsyncQueue.enqueue clock task_id work p m self))))
      = 1%nat.
Proof.
  intros Hreach Hrun Hfresh.
  set (s1 := snd (AsyncQueue.enqueue clock task_id work p m self)).
  assert (Hreach1 : async_reachable clock s1) by (now constructor).
  assert (Hrun1 : running s1 = true) by exact Hrun.
  exists (load snd s1). intros n Hn.
  destruct (async_tasks_end clock s1 Hreach1 Hrun1 n Hn) as [Hq Hwf].
  pose proof (iterations_frame pq_get snd async_retry clock n s1 task_id) as Hframe.
  rewrite <- async_worker_eq in Hframe by exact Hrun1.
  replace (tasks s1 !! task_id)
    with (Some (mkTask task_id work PENDING (clock (ticks self)) None None None None
                       0 m p)) in Hframe
    by (symmetry; apply lookup_insert_eq).
  destruct Hframe as (task & Htask & _ & Hfunc & _).
  cbn [func] in Hfunc.
  destruct (drained_returning_task snd _ task_id task Hwf Hq Htask)
    as (H1 & H2 & H3 & H4 & H5).
  { intros k. rewrite Hfunc. apply work_returns. }
  exists task. rewrite Hfunc in H4. auto 10.
Qed.

Lemma pool_returning_task (self : ThreadPoolQueue.t) :
  pool_reachable clock self -> running self = true ->
  tasks self !! task_id = None ->
  exists n0, forall n, (n0 <= n)%nat ->
    exists task,
      tasks (ThreadPoolQueue._worker clock n
               (snd (ThreadPoolQueue.enqueue clock task_id work p m self))) !! task_id
      = Some task /\
      status task = COMPLETED /\ retry_count task = 0 /\ error task = None /\
      (exists k v, work k = Return v /\ result task = Some v) /\
      runs task_id (invoked (ThreadPoolQueue._worker clock n
                               (snd (ThreadPoolQueue.enqueue clock task_id work p m
                                                             self))))
      = 1%nat.
Proof.
  intros Hreach Hrun Hfresh.
  set (s1 := snd (ThreadPoolQueue.enqueue clock task_id work p m self)).
  assert (Hreach1 : pool_reachable clock s1) by (now constructor).
  assert (Hrun1 : running s1 = true) by exact Hrun.
  exists (load (fun t : string => t) s1). intros n Hn.
  destruct (pool_tasks_end clock s1 Hreach1 Hrun1 n Hn) as [Hq Hwf].
  pose proof (iterations_frame fifo_get (fun t : string => t) (fun t : string => t)
                clock n s1 task_id) as Hframe.
  rewrite <- pool_worker_eq in Hframe by exact Hrun1.
  replace (tasks s1 !! task_id)
    with (Some (mkTask task_id work PENDING (clock (ticks self)) None None None None
                       0 m p)) in Hframe
    by (symmetry; apply lookup_insert_eq).
  destruct Hframe as (task & Htask & _ & Hfunc & _).
  cbn [func] in Hfunc.
  destruct (drained_returning_task (fun t : string => t) _ task_id task Hwf Hq Htask)
    as (H1 & H2 & H3 & H4 & H5).
  { intros k. rewrite Hfunc. apply work_returns. }
  exists task. rewrite Hfunc in H4. auto 10.
Qed.

End ReturningTask.

(** X10: a task whose work never raises, enqueued under an unused id on a
    queue whose worker runs, is eventually COMPLETED, with the value of one
    of its calls as [result], no error, [retry_count = 0], and its work
    invoked exactly once, whatever else the queue holds. *)
Theorem returning_task_completes_once (clock : nat -> datetime) (task_id : string)
        (work : nat -> Outcome string) (p m : Z) :
  (forall n, raised (work n) = false) ->
  (forall self : AsyncQueue.t,
      async_reachable clock self -> running self = true ->
      tasks self !! task_id = None ->
      exists n0, forall n, (n0 <= n)%nat ->
        exists task,
          tasks (AsyncQueue._worker clock n
                   (snd (AsyncQueue.enqueue clock task_id work p m self))) !! task_id
          = Some task /\
          status task = COMPLETED /\ retry_count task = 0 /\ error task = None /\
          (exists k v, work k = Return v /\ result task = Some v) /\
          runs task_id
               (invoked (AsyncQueue._worker clock n
                           (snd (AsyncQueue.enqueue clock task_id work p m self))))
          = 1%nat) /\
  (forall self : ThreadPoolQueue.t,
      pool_reachable clock self -> running self = true ->
      tasks self !! task_id = None ->
      exists n0, forall n, (n0 <= n)%nat ->
        exists task,
          tasks (ThreadPoolQueue._worker clock n
                   (snd (ThreadPoolQueue.enqueue clock task_id work p m self))) !! task_id
          = Some task /\
          status task = COMPLETED /\ retry_count task = 0 /\ error task = None /\
          (exists k v, work k = Return v /\ result task = Some v) /\
          runs task_id
               (invoked (ThreadPoolQueue._worker clock n
                           (snd (ThreadPoolQueue.enqueue clock task_id work p m self))))
          = 1%nat).
Proof.
  intros Hwork. split; intros self Hreach Hrun Hfresh.
  - now apply async_returning_task.
  - now apply pool_returning_task.
Qed.

Lemma returning_task_completes_once_witness :
  (forall n, raised (QueueRuns.fine n) = false) /\
  async_reachable QueueRuns.clock0 QueueRuns.idle_async /\
  running QueueRuns.idle_async = true /\
  tasks QueueRuns.idle_async !! "job" = None /\
  exists n0, forall n, (n0 <= n)%nat ->
    exists task,
      tasks (AsyncQueue._worker QueueRuns.clock0 n
               (snd (AsyncQueue.enqueue QueueRuns.clock0 "job" QueueRuns.fine 0 3
                                        QueueRuns.idle_async))) !! "job"
      = Some task /\
      status task = COMPLETED.
Proof.
  assert (Hreach : async_reachable QueueRuns.clock0 QueueRuns.idle_async)
    by (apply async_started, async_new).
  split; [intros n; reflexivity |]. split; [exact Hreach |].
  split; [reflexivity |]. split; [reflexivity |].
  destruct (returning_task_completes_once QueueRuns.clock0 "job" QueueRuns.fine 0 3
              (fun _ => eq_refl)) as [Hasync _].
  destruct (Hasync QueueRuns.idle_async Hreach eq_refl eq_refl) as [n0 Hn0].
  exists n0. intros n Hn. destruct (Hn0 n Hn) as (task & Ht & Hs & _).
  exists task. split; assumption.
Defined.

(** X11: the worker loop never drops or adds a task and never rewrites
    what [enqueue] fixed: after any number of iterations a registered id
    still holds a task with the same [id], callable, [max_retries],
    [priority] and [created_at], and an unregistered id is still
    unregistered. *)
Theorem worker_keeps_task_identity (clock : nat -> datetime) (n : nat) (i : string) :
  (forall self : AsyncQueue.t,
      match tasks self !! i with
      | Some task =>
          exists task', tasks (AsyncQueue._worker clock n self) !! i = Some task' /\
                        same_identity task task'
      | None => tasks (AsyncQueue._worker clock n self) !! i = None
      end) /\
  (forall self : ThreadPoolQueue.t,
      match tasks self !! i with
      | Some task =>
          exists task', tasks (ThreadPoolQueue._worker clock n self) !! i = Some task' /\
                        same_identity task task'
      | None => tasks (ThreadPoolQueue._worker clock n self) !! i = None
      end).
Proof.
  split; intros self.
  - destruct (running self) eqn:Hrun.
    + rewrite async_worker_eq by exact Hrun. apply iterations_frame.
    + rewrite async_worker_stopped by exact Hrun.
      destruct (tasks self !! i) as [task |]; [| reflexivity].
      exists task. unfold same_identity. repeat split.
  - destruct (running self) eqn:Hrun.
    + rewrite pool_worker_eq by exact Hrun. apply iterations_frame.
    + rewrite pool_worker_stopped by exact Hrun.
      destruct (tasks self !! i) as [task |]; [| reflexivity].
      exists task. unfold same_identity. repeat split.
Qed.

(** ** Starting and stopping *)


(** ** Ties and retries on the priority queue *)

Lemma async_first_of_two clock (self : AsyncQueue.t) (x y : Z * string) task n :
  running self = true ->
  queue self = [x; y] ->
  let first := if item_ltb y x then y else x in
  tasks self !! snd first = Some task ->
  exists l, invoked (AsyncQueue._worker clock (S n) self)
            = invoked self ++ snd first :: l.
Proof.
  intros Hrun Hq first Hreg.
  rewrite async_worker_eq by exact Hrun.
  apply (iterations_first_run pq_get snd async_retry clock pq_get_none pq_get_some
           n self first (if item_ltb y x then [x] else [y]) task); [| exact Hreg].
  rewrite Hq. cbn [pq_get extract_min]. unfold first.
  now destruct (item_ltb y x).
Qed.

(** X13: on [AsyncQueue] a tie in priority is broken by the task ids, not
    by arrival.  Of two tasks enqueued with the same priority on an idle
    queue before the worker's next iteration, the first one started is the
    one with the smaller id string, even if it was enqueued second. *)
Theorem equal_priority_is_served_by_id (clock : nat -> datetime) (self : AsyncQueue.t)
        (a b : string) (fa fb : nat -> Outcome string) (p ma mb : Z) (n : nat) :
  running self = true -> queue self = [] -> a <> b ->
  let s := snd (AsyncQueue.enqueue clock b fb p mb
                  (snd (AsyncQueue.enqueue clock a fa p ma self))) in
  exists l,
    invoked (AsyncQueue._worker clock (S n) s)
    = invoked self ++ (if String.ltb b a then b else a) :: l.
Proof.
  intros Hrun Hq Hab. cbv zeta.
  set (s := snd (AsyncQueue.enqueue clock b fb p mb
                   (snd (AsyncQueue.enqueue clock a fa p ma self)))).
  assert (Hqs : queue s = [(- p, a); (- p, b)]) by (cbn; now rewrite Hq).
  assert (Hlt : item_ltb (- p, b) (- p, a) = String.ltb b a).
  { unfold item_ltb. cbn [fst snd]. now rewrite Z.ltb_irrefl, Z.eqb_refl. }
  assert (Hreg : is_Some (tasks s !! (if String.ltb b a then b else a))).
  { unfold s, AsyncQueue.enqueue. cbn [snd]. read_queue.
    destruct (String.ltb b a).
    - rewrite lookup_insert_eq. eauto.
    - rewrite lookup_insert_ne by congruence. rewrite lookup_insert_eq. eauto. }
  destruct Hreg as [task Hreg].
  destruct (async_first_of_two clock s (- p, a) (- p, b) task n Hrun Hqs) as [l Hl].
  - rewrite Hlt. now destruct (String.ltb b a).
  - exists l. rewrite Hl, Hlt. now destruct (String.ltb b a).
Qed.

Lemma equal_priority_is_served_by_id_witness :
  running QueueRuns.idle_async = true /\
  queue QueueRuns.idle_async = [] /\
  "zeta" <> "alpha" /\
  exists l,
    invoked (AsyncQueue._worker QueueRuns.clock0 1
               (snd (AsyncQueue.enqueue QueueRuns.clock0 "alpha" QueueRuns.fine 0 3
                       (snd (AsyncQueue.enqueue QueueRuns.clock0 "zeta" QueueRuns.fine 0 3
                                                QueueRuns.idle_async)))))
    = invoked QueueRuns.idle_async
      ++ (if String.ltb "alpha" "zeta" then "alpha" else "zeta") :: l.
Proof.
  assert (Hne : "zeta" <> "alpha") by discriminate.
  split; [reflexivity |]. split; [reflexivity |]. split; [exact Hne |].
  exact (equal_priority_is_served_by_id QueueRuns.clock0 QueueRuns.idle_async
           "zeta" "alpha" QueueRuns.fine QueueRuns.fine 0 3 3 0 eq_refl eq_refl Hne).
Defined.

Section WorkerRetry.

Context {Item : Type}.
Variable get : list Item -> option (Item * list Item).
Variable item_id : Item -> string.
Variable retry_item : string -> Item.
Variable clock : nat -> datetime.

Implicit Types (self : QueueState Item) (task : QueuedTask).

Local Abbreviation iteration := (Worker.iteration get item_id retry_item clock).

(** An iteration whose task raises with retries left puts the task's id
    back at the end of the queue. *)
Lemma iteration_requeues self x q' task e :
  get (queue self) = Some (x, q') ->
  tasks self !! item_id x = Some task ->
  func task (length (invoked self)) = Raise e ->
  retry_count task + 1 < max_retries task ->
  exists task' ticks',
    iteration self
    = mkQueue (q' ++ [retry_item (item_id x)]) (<[item_id x := task']> (tasks self))
              (running self) (invoked self ++ [item_id x]) ticks'.
Proof.
  intros Hget Hreg Hcall Hleft. unfold Worker.iteration. rewrite Hget.
  destruct (run_task_registered retry_item clock (item_id x) (set_queue q' self) task Hreg)
    as (task' & q'' & ticks' & -> & _ & _ & Hend).
  cbn [set_queue queue tasks running invoked ticks] in *.
  exists task', ticks'.
  destruct Hend as [v Hv | e' _ _ _ _ -> | e' _ _ Hmax]; [congruence | reflexivity | lia].
Qed.

End WorkerRetry.

(** X14: a retry is put back on [AsyncQueue] as [(-1, task_id)], whatever
    the task's own priority was.  So when a task [a] fails on its first
    run with retries left, and [b] of lower priority was enqueued with it,
    the retry of [a] waits behind [b] as soon as [b]'s priority is above
    1, and goes ahead of [b] when [b]'s priority is below 1. *)
Theorem retry_is_requeued_at_priority_one (clock : nat -> datetime) (self : AsyncQueue.t)
        (a b : string) (fa fb : nat -> Outcome string) (pa pb ma mb : Z)
        (e : Exception) (n : nat) :
  running self = true -> queue self = [] -> a <> b ->
  pb < pa ->
  fa (length (invoked self)) = Raise e -> 1 < ma ->
  let s := snd (AsyncQueue.enqueue clock b fb pb mb
                  (snd (AsyncQueue.enqueue clock a fa pa ma self))) in
  (1 < pb -> exists l, invoked (AsyncQueue._worker clock (S (S n)) s)
                       = invoked self ++ a :: b :: l) /\
  (pb < 1 -> exists l, invoked (AsyncQueue._worker clock (S (S n)) s)
                       = invoked self ++ a :: a :: l).
Proof.
  intros Hrun Hq Hab Hp Hcall Hma. cbv zeta.
  set (s := snd (AsyncQueue.enqueue clock b fb pb mb
                   (snd (AsyncQueue.enqueue clock a fa pa ma self)))).
  assert (Hrs : running s = true) by exact Hrun.
  assert (Hget : pq_get (queue s) = Some ((- pa, a), [(- pb, b)])).
  { cbn. rewrite Hq. cbn. unfold item_ltb. cbn [fst snd].
    replace (- pb <? - pa) with false by (symmetry; apply Z.ltb_ge; lia).
    replace (- pb =? - pa) with false by (symmetry; apply Z.eqb_neq; lia).
    reflexivity. }
  assert (Hta : tasks s !! a
                = Some (mkTask a fa PENDING (clock (ticks self)) None None None None
                               0 ma pa)).
  { unfold s, AsyncQueue.enqueue. cbn [snd]. read_queue.
    rewrite lookup_insert_ne by congruence. now rewrite lookup_insert_eq. }
  assert (Htb : is_Some (tasks s !! b)).
  { unfold s, AsyncQueue.enqueue. cbn [snd]. read_queue.
    rewrite lookup_insert_eq. eauto. }
  destruct Htb as [tb Htb].
  destruct (iteration_requeues pq_get snd async_retry clock s (- pa, a) [(- pb, b)]
              _ e Hget Hta) as (ta' & k' & Hstep).
  { cbn [func]. exact Hcall. }
  { cbn [retry_count max_retries]. lia. }
  cbn [snd] in Hstep. change (invoked s) with (invoked self) in Hstep.
  rewrite async_worker_eq by exact Hrs.
  change (Worker.iterations pq_get snd async_retry clock (S (S n)) s)
    with (Worker.iterations pq_get snd async_retry clock (S n)
            (Worker.iteration pq_get snd async_retry clock s)).
  rewrite Hstep. clear Hstep.
  set (s1 := mkQueue _ _ _ _ _).
  split; intros Hpb.
  - destruct (iterations_first_run pq_get snd async_retry clock pq_get_none pq_get_some
                n s1 (- pb, b) [async_retry a] tb) as [l Hl].
    + cbn. unfold item_ltb, async_retry. cbn [fst snd].
      replace (-1 <? - pb) with false by (symmetry; apply Z.ltb_ge; lia).
      replace (-1 =? - pb) with false by (symmetry; apply Z.eqb_neq; lia).
      reflexivity.
    + cbn [s1 tasks snd]. rewrite lookup_insert_ne by congruence. exact Htb.
    + exists l. rewrite Hl. cbn [s1 invoked snd]. rewrite <- app_assoc. reflexivity.
  - destruct (iterations_first_run pq_get snd async_retry clock pq_get_none pq_get_some
                n s1 (async_retry a) [(- pb, b)] ta') as [l Hl].
    + cbn. unfold item_ltb, async_retry. cbn [fst snd].
      replace (-1 <? - pb) with true by (symmetry; apply Z.ltb_lt; lia).
      reflexivity.
    + cbn [s1 tasks snd]. now rewrite lookup_insert_eq.
    + exists l. rewrite Hl. cbn [s1 invoked snd]. rewrite <- app_assoc. reflexivity.
Qed.

Lemma retry_is_requeued_at_priority_one_witness :
  running QueueRuns.idle_async = true /\
  queue QueueRuns.idle_async = [] /\
  "urgent" <> "routine" /\ 2 < 5 /\
  QueueRuns.boom (length (invoked QueueRuns.idle_async)) = Raise "boom" /\ 1 < 3 /\
  (1 < 2 ->
   exists l,
     invoked (AsyncQueue._worker QueueRuns.clock0 2
                (snd (AsyncQueue.enqueue QueueRuns.clock0 "routine" QueueRuns.fine 2 3
                        (snd (AsyncQueue.enqueue QueueRuns.clock0 "urgent" QueueRuns.boom
                                                 5 3 QueueRuns.idle_async)))))
     = invoked QueueRuns.idle_async ++ "urgent" :: "routine" :: l).
Proof.
  assert (Hne : "urgent" <> "routine") by discriminate.
  assert (Hp : 2 < 5) by lia.
  assert (Hm : 1 < 3) by lia.
  split; [reflexivity |]. split; [reflexivity |]. split; [exact Hne |].
  split; [exact Hp |]. split; [reflexivity |]. split; [exact Hm |].
  exact (proj1 (retry_is_requeued_at_priority_one QueueRuns.clock0 QueueRuns.idle_async
                  "urgent" "routine" QueueRuns.boom QueueRuns.fine 5 2 3 3 "boom" 0
                  eq_refl eq_refl Hne Hp eq_refl Hm)).
Defined.

(** ** The notifier: what is reported as delivered *)

Section Delivered.

Variable env : Env.
Implicit Types (self : Notifier) (user : User) (e : EmergencyType).

(** One decorated send either returns the success dictionary and leaves
    one metric, or raises and leaves none. *)
Lemma send_delivery (c : Channel) (message recipient : string) self :
  let out := send env c message recipient self in
  (fst out = Return (Some (mkResult "success" (channel_name c) recipient message)) /\
   _performance_metrics (snd out) = _performance_metrics self ++ [method_name c]) \/
  (raised (fst out) = true /\
   _performance_metrics (snd out) = _performance_metrics self).
Proof.
  cbv zeta. rewrite send_unfold. send_cases env self.
  all: [> right | left | left | left]; split; reflexivity.
Qed.

Lemma success_channels_delivered (message : string) user (cs : list Channel) :
  success_channels (map (Delivery.delivered message user) cs)
  = Return (map channel_name cs).
Proof.
  induction cs as [| c cs IH]; [reflexivity |].
  cbn [map Delivery.delivered success_channels r_status r_channel].
  now rewrite IH.
Qed.

Lemma archive_metrics (d : NotificationData) self :
  _performance_metrics (snd (archive_notification env d self))
  = _performance_metrics self.
Proof.
  unfold archive_notification.
  destruct (success_channels (d_results d)); [| reflexivity].
  destruct (commit_error env (commits self)); reflexivity.
Qed.

Lemma send_all_channels_delivered (message : string) user self :
  exists cs,
    cs `sublist_of` Spec.channels_for CRITICAL user /\
    fst (send_all_channels env message user self)
    = map (Delivery.delivered message user) cs /\
    _performance_metrics (snd (send_all_channels env message user self))
    = _performance_metrics self ++ map method_name cs.
Proof.
  unfold send_all_channels, Spec.channels_for.
  change (send_email env) with (send env Email).
  change (send_push env) with (send env Push).
  change (send_sms env) with (send env SMS).
  pose proof (send_delivery Email message (u_email user) self) as H1. cbv zeta in H1.
  destruct (send env Email message (u_email user) self) as [o1 s1].
  cbn [fst snd] in H1.
  destruct H1 as [[-> M1] | [R1 M1]]; [| destruct o1 as [v1 | e1]; [discriminate |]].
  all: cbn [append_result app].
  all: pose proof (send_delivery Push message (u_id user) s1) as H2; cbv zeta in H2.
  all: destruct (send env Push message (u_id user) s1) as [o2 s2].
  all: cbn [fst snd] in H2.
  all: destruct H2 as [[-> M2] | [R2 M2]]; [| destruct o2 as [v2 | e2]; [discriminate |]].
  all: cbn [append_result app].
  all: destruct (truthy_str (u_phone user));
    [pose proof (send_delivery SMS message (default "" (u_phone user)) s2) as H3;
     cbv zeta in H3;
     destruct (send env SMS message (default "" (u_phone user)) s2) as [o3 s3];
     cbn [fst snd] in H3;
     destruct H3 as [[-> M3] | [R3 M3]];
     [| destruct o3 as [v3 | e3]; [discriminate |]] |].
  all: cbn [append_result app fst snd].
  all: match goal with
       | |- context [channel_name Email] =>
           match goal with
           | |- context [channel_name Push] =>
               match goal with
               | |- context [channel_name SMS] => exists [Email; Push; SMS]
               | _ => exists [Email; Push]
               end
           | _ =>
               match goal with
               | |- context [channel_name SMS] => exists [Email; SMS]
               | _ => exists [Email]
               end
           end
       | _ =>
           match goal with
           | |- context [channel_name Push] =>
               match goal with
               | |- context [channel_name SMS] => exists [Push; SMS]
               | _ => exists [Push]
               end
           | _ =>
               match goal with
               | |- context [channel_name SMS] => exists [SMS]
               | _ => exists []
               end
           end
       end.
  all: split; [cbn [app]; repeat (first [apply sublist_nil | apply sublist_skip
                                         | apply sublist_cons]) |].
  all: split; [reflexivity |].
  all: cbn [map]; rewrite ?M3, ?M2, ?M1, <- ?app_assoc; cbn [app];
    rewrite ?app_nil_r; reflexivity.
Qed.

End Delivered.

(** X15: what [notify] reports is what was delivered, whatever the draws
    and the database do.  When [notify] returns, its [results] are the
    success dictionaries of some of the chosen channels, in the table's
    order (all of them unless the priority is CRITICAL), each addressed to
    the user's e-mail, id or phone; the archived row lists exactly those
    channels, comma-joined, and one metric per delivered channel has been
    recorded.  When it raises, the metrics still grow only by sends that
    succeeded on chosen channels. *)
Theorem notify_reports_what_was_delivered (env : Env) (t_check t_fail : datetime)
        (user : User) (title body : string) (e : EmergencyType) (self : Notifier) :
  let out := notify env t_check t_fail user title body e self in
  let chosen := Spec.channels_for (get_priority (Member e)) user in
  let message := format_message title body (Some e) in
  exists delivered : list Channel,
    delivered `sublist_of` chosen /\
    _performance_metrics (snd out)
    = _performance_metrics self ++ map method_name delivered /\
    match fst out with
    | Return d =>
        d_results d = map (Delivery.delivered message user) delivered /\
        (get_priority (Member e) <> CRITICAL -> delivered = chosen) /\
        exists row,
          last (notifications (snd out)) = Some row /\
          row_channels row = join "," (map channel_name delivered)
    | Raise _ => True
    end.
Proof.
  cbv zeta. unfold notify.
  destruct (is_circuit_open t_check (breaker self)) as [[|] cb]; cbn [fst snd].
  { exists []. split; [apply sublist_nil_l |]. split; [| exact I].
    cbn. now rewrite app_nil_r. }
  change (_performance_metrics self) with (_performance_metrics (set_breaker cb self)).
  generalize (set_breaker cb self) as s0. intros s0.
  unfold notify_try.
  generalize (format_message title body (Some e)) as message. intros message.
  generalize (value e) as tag. intros tag.
  set (p := get_priority (Member e)). clearbody p.
  assert (Harch : forall cs s1,
             cs `sublist_of` Spec.channels_for p user ->
             (p <> CRITICAL -> cs = Spec.channels_for p user) ->
             _performance_metrics s1 = _performance_metrics s0 ++ map method_name cs ->
             let out :=
               match
                 match
                   archive_notification env
                     (mkData (u_id user) title body tag (priority_name p)
                             (map (Delivery.delivered message user) cs) None) s1
                 with
                 | (Return d, s2) =>
                     (Return d, set_breaker (record_success (breaker s2)) s2)
                 | (Raise err, s2) => (Raise err, s2)
                 end
               with
               | (Return d, s2) => (Return d, s2)
               | (Raise err, s2) =>
                   (Raise err, set_breaker (record_failure t_fail (breaker s2)) s2)
               end in
             exists delivered : list Channel,
               delivered `sublist_of` Spec.channels_for p user /\
               _performance_metrics (snd out)
               = _performance_metrics s0 ++ map method_name delivered /\
               match fst out with
               | Return d =>
                   d_results d = map (Delivery.delivered message user) delivered /\
                   (p <> CRITICAL -> delivered = Spec.channels_for p user) /\
                   exists row,
                     last (notifications (snd out)) = Some row /\
                     row_channels row = join "," (map channel_name delivered)
               | Raise _ => True
               end).
  { intros cs s1 Hsub Hall Hm. cbv zeta. exists cs. split; [exact Hsub |].
    unfold archive_notification. cbn [d_results].
    rewrite success_channels_delivered.
    destruct (commit_error env (commits s1)); cbn.
    - split; [exact Hm | exact I].
    - split; [exact Hm |]. split; [reflexivity |]. split; [exact Hall |].
      eexists. split; [apply last_snoc | reflexivity]. }
  destruct (is_critical p) eqn:Hcrit.
  - assert (p = CRITICAL) as -> by (destruct p; easy).
    destruct (send_all_channels_delivered env message user s0) as (cs & Hsub & Hres & Hm).
    destruct (send_all_channels env message user s0) as [results s1].
    cbn [fst snd] in Hres, Hm. subst results.
    apply Harch; [exact Hsub | congruence | exact Hm].
  - assert (Hone : Spec.channels_for p user
                   = [if prefers_email user then Email else Push])
      by (destruct p; easy).
    change (send_email env) with (send env Email).
    change (send_push env) with (send env Push).
    destruct (prefers_email user).
    + pose proof (send_delivery env Email message (u_email user) s0) as H1.
      cbv zeta in H1.
      destruct (send env Email message (u_email user) s0) as [o1 s1].
      cbn [fst snd] in H1. destruct H1 as [[-> M1] | [R1 M1]].
      * apply (Harch [Email] s1); [now rewrite Hone | now rewrite Hone | exact M1].
      * destruct o1 as [v1 | e1]; [discriminate |].
        exists []. split; [apply sublist_nil_l |]. cbn. split; [| exact I].
        now rewrite app_nil_r.
    + pose proof (send_delivery env Push message (u_id user) s0) as H1.
      cbv zeta in H1.
      destruct (send env Push message (u_id user) s0) as [o1 s1].
      cbn [fst snd] in H1. destruct H1 as [[-> M1] | [R1 M1]].
      * apply (Harch [Push] s1); [now rewrite Hone | now rewrite Hone | exact M1].
      * destruct o1 as [v1 | e1]; [discriminate |].
        exists []. split; [apply sublist_nil_l |]. cbn. split; [| exact I].
        now rewrite app_nil_r.
Qed.

(** ** From the emergency string to the member *)

(** X16: the lookup loop of [send_notification_sync] inverts [value]: the
    value of a member is mapped back to that member, and every other
    string, whatever its case or accents, is mapped to ACADEMIC, for which
    [get_priority] gives LOW. *)
Theorem emergency_enum_inverts_value :
  (forall e, NotificationSync.emergency_enum (value e) = e) /\
  (forall s, value (NotificationSync.emergency_enum s) = s \/
             ((forall e, value e <> s) /\
              NotificationSync.emergency_enum s = ACADEMIC /\
              get_priority (Member (NotificationSync.emergency_enum s)) = LOW)).
Proof.
  split; [intros []; vm_compute; reflexivity |].
  intros s. unfold NotificationSync.emergency_enum, NotificationSync.members.
  cbn [NotificationSync.lookup].
  destruct (String.eqb (value WEATHER) s) eqn:H1;
    [left; now apply String.eqb_eq in H1 |].
  destruct (String.eqb (value SECURITY) s) eqn:H2;
    [left; now apply String.eqb_eq in H2 |].
  destruct (String.eqb (value HEALTH) s) eqn:H3;
    [left; now apply String.eqb_eq in H3 |].
  destruct (String.eqb (value INFRASTRUCTURE) s) eqn:H4;
    [left; now apply String.eqb_eq in H4 |].
  destruct (String.eqb (value ACADEMIC) s) eqn:H5;
    [left; now apply String.eqb_eq in H5 |].
  right. split; [| split; reflexivity].
  intros [] Heq; apply String.eqb_eq in Heq; congruence.
Qed.

(** ** [NotificationTask]: to a dictionary and back *)

Lemma to_dict_lookups (task : NotificationTask.t) :
  NotificationTask.to_dict task !! "user_id" = Some (NotificationTask.user_id task) /\
  NotificationTask.to_dict task !! "title" = Some (NotificationTask.title task) /\
  NotificationTask.to_dict task !! "body" = Some (NotificationTask.body task) /\
  NotificationTask.to_dict task !! "emergency_type"
  = Some (NotificationTask.emergency_type task) /\
  NotificationTask.to_dict task !! "id" = Some (NotificationTask.id task).
Proof.
  unfold NotificationTask.to_dict.
  repeat split;
    repeat (first [rewrite lookup_insert_eq; reflexivity
                  | rewrite lookup_insert_ne by discriminate]).
Qed.

(** X17: [from_dict] undoes [to_dict], id included, at the cost of two
    fresh uuids that are thrown away.  On any dictionary, [from_dict]
    raises a [KeyError] exactly when one of the four required keys is
    missing, and then draws no uuid; otherwise the task carries the four
    values as they are and the dictionary's ['id'] if it has one, and
    without one the second of the two uuids drawn, not the constructor's. *)
Theorem notification_task_round_trip (uuid4 : nat -> string) :
  (forall task drawn,
      NotificationTask.from_dict uuid4 (NotificationTask.to_dict task) drawn
      = (Return task, S (S drawn))) /\
  (forall data drawn,
      match NotificationTask.from_dict uuid4 data drawn with
      | (Return task, drawn') =>
          drawn' = S (S drawn) /\
          data !! "user_id" = Some (NotificationTask.user_id task) /\
          data !! "title" = Some (NotificationTask.title task) /\
          data !! "body" = Some (NotificationTask.body task) /\
          data !! "emergency_type" = Some (NotificationTask.emergency_type task) /\
          NotificationTask.id task
          = default (NotificationTask.PyStr (uuid4 (S drawn))) (data !! "id")
      | (Raise _, drawn') =>
          drawn' = drawn /\
          exists key, key ∈ ["user_id"; "title"; "body"; "emergency_type"] /\
                      data !! key = None
      end).
Proof.
  split.
  - intros task drawn.
    destruct (to_dict_lookups task) as (H1 & H2 & H3 & H4 & H5).
    unfold NotificationTask.from_dict, NotificationTask.getitem.
    rewrite H1, H2, H3, H4, H5. cbn. now destruct task.
  - intros data drawn. unfold NotificationTask.from_dict, NotificationTask.getitem.
    destruct (data !! "user_id") as [v1 |] eqn:H1;
      [| split; [reflexivity | exists "user_id"; split; [set_solver | exact H1]]].
    destruct (data !! "title") as [v2 |] eqn:H2;
      [| split; [reflexivity | exists "title"; split; [set_solver | exact H2]]].
    destruct (data !! "body") as [v3 |] eqn:H3;
      [| split; [reflexivity | exists "body"; split; [set_solver | exact H3]]].
    destruct (data !! "emergency_type") as [v4 |] eqn:H4;
      [| split; [reflexivity
                | exists "emergency_type"; split; [set_solver | exact H4]]].
    cbn. repeat split.
Qed.

(** ** Serving a backlog of tasks that return *)

Section WorkerServes.

Context {Item : Type}.
Variable get : list Item -> option (Item * list Item).
Variable item_id : Item -> string.
Variable retry_item : string -> Item.
Variable clock : nat -> datetime.

Hypothesis get_some : forall q x q', get q = Some (x, q') -> q ≡ₚ x :: q'.

Implicit Types (self : QueueState Item) (task : QueuedTask).

Local Abbreviation iteration := (Worker.iteration get item_id retry_item clock).

(** One iteration on a backlog of returning tasks runs the item handed
    out by [get] and leaves the rest of the queue as it is. *)
Lemma iteration_serves self x q' :
  get (queue self) = Some (x, q') ->
  backlog_returns item_id self ->
  invoked (iteration self) = invoked self ++ [item_id x] /\
  queue (iteration self) = q' /\
  backlog_returns item_id (iteration self).
Proof.
  intros Hget Hback. pose proof (get_some _ _ _ Hget) as Hperm.
  destruct (Hback x) as (task & Hreg & Hret); [rewrite Hperm; left |].
  unfold Worker.iteration. rewrite Hget.
  destruct (run_task_registered retry_item clock (item_id x) (set_queue q' self) task Hreg)
    as (task' & q'' & ticks' & -> & Hf & _ & Hend).
  cbn [set_queue queue tasks running invoked ticks] in *.
  assert (q'' = q') as ->.
  { destruct Hend as [v _ _ _ Hq | e He | e He]; [exact Hq | |];
      specialize (Hret (length (invoked self))); rewrite He in Hret; discriminate. }
  split; [reflexivity |]. split; [reflexivity |].
  intros y Hy. cbn [queue tasks] in *.
  destruct (decide (item_id y = item_id x)) as [-> | Hne].
  - exists task'. rewrite lookup_insert_eq. split; [reflexivity |].
    intros n. rewrite Hf. apply Hret.
  - rewrite lookup_insert_ne by congruence.
    apply Hback. rewrite Hperm. now right.
Qed.

End WorkerServes.

(** X18: when every queued id is registered with work that never raises,
    a running worker serves the backlog without retries, in the order the
    queue hands it out: [AsyncQueue] by ascending [(-priority, id)], so by
    descending priority, and [ThreadPoolQueue] in arrival order. *)
Theorem backlog_is_served_in_queue_order (clock : nat -> datetime) :
  (forall (n : nat) (self : AsyncQueue.t),
      running self = true -> backlog_returns snd self ->
      invoked (AsyncQueue._worker clock n self)
      = invoked self ++ map snd (drain n (queue self)) /\
      StronglySorted (fun a b => - b.1 <= - a.1) (drain n (queue self))) /\
  (forall (n : nat) (self : ThreadPoolQueue.t),
      running self = true -> backlog_returns (fun i : string => i) self ->
      invoked (ThreadPoolQueue._worker clock n self)
      = invoked self ++ take n (queue self)).
Proof.
  split.
  - intros n self Hrun Hback. split; [| apply drain_sorted].
    rewrite async_worker_eq by exact Hrun. clear Hrun.
    revert self Hback. induction n as [| n IH]; intros self Hback.
    + cbn. now rewrite app_nil_r.
    + cbn [Worker.iterations drain].
      destruct (pq_get (queue self)) as [[x q'] |] eqn:Hget.
      * destruct (iteration_serves pq_get snd async_retry clock pq_get_some
                    self x q' Hget Hback) as (Hi & Hq & Hb).
        rewrite (IH _ Hb), Hi, Hq, <- app_assoc. reflexivity.
      * apply pq_get_none in Hget.
        rewrite (iteration_idle pq_get snd async_retry clock pq_get_some) by exact Hget.
        rewrite (iterations_idle pq_get snd async_retry clock pq_get_some) by exact Hget.
        cbn. now rewrite app_nil_r.
  - intros n self Hrun Hback.
    rewrite pool_worker_eq by exact Hrun. clear Hrun.
    revert self Hback. induction n as [| n IH]; intros self Hback.
    + cbn. now rewrite app_nil_r.
    + cbn [Worker.iterations].
      destruct (queue self) as [| x q'] eqn:Hq0.
      * rewrite (iteration_idle fifo_get (fun i : string => i) (fun i : string => i)
                   clock fifo_get_some) by exact Hq0.
        rewrite (iterations_idle fifo_get (fun i : string => i) (fun i : string => i)
                   clock fifo_get_some) by exact Hq0.
        cbn. now rewrite app_nil_r.
      * destruct (iteration_serves fifo_get (fun i : string => i) (fun i : string => i)
                    clock fifo_get_some self x q') as (Hi & Hq & Hb);
          [now rewrite Hq0 | exact Hback |].
        rewrite (IH _ Hb), Hi, Hq, <- app_assoc. reflexivity.
Qed.

Lemma async_low_then_high_returns : backlog_returns snd QueueRuns.async_low_then_high.
Proof.
  intros x Hx.
  change (queue QueueRuns.async_low_then_high) with [(0, "low"); (-2, "high")] in Hx.
  apply elem_of_cons in Hx as [-> | Hx];
    [| apply list_elem_of_singleton in Hx as ->].
  all: eexists; split; [vm_compute; reflexivity | intros n; reflexivity].
Qed.

Lemma backlog_is_served_in_queue_order_witness :
  running QueueRuns.async_low_then_high = true /\
  backlog_returns snd QueueRuns.async_low_then_high /\
  invoked (AsyncQueue._worker QueueRuns.clock0 2 QueueRuns.async_low_then_high)
  = invoked QueueRuns.async_low_then_high
    ++ map snd (drain 2 (queue QueueRuns.async_low_then_high)).
Proof.
  split; [reflexivity |]. split; [exact async_low_then_high_returns |].
  exact (proj1 (proj1 (backlog_is_served_in_queue_order QueueRuns.clock0) 2%nat
                  QueueRuns.async_low_then_high eq_refl async_low_then_high_returns)).
Defined.
